(** * Disaster tweet triage: dashboard clustering, ranking and fallback

  A shallow embedding of the parts of the repository that carry the
  behaviour of the alert feed:

  - [useHeatmapData] of components/DisasterHeatmap.jsx (also quoted in the
    heatmap feature notes), the location clustering;
  - [loadTweets], [getMockTweets] and the alert feed of App.jsx;
  - [search_tweets_with_fallback] and [search_tweets_resilient] of the
    Twitter API implementation guide, the provider fallback;
  - the priority score, documented in FINAL_SYSTEM_DOCUMENTATION.md;
  - the map of components/DisasterHeatmap.jsx ([FitBounds], the markers,
    their click handler and popup, the statistics) and, of App.jsx,
    [getTimeAgo], the selection and the state [loadTweets] leaves;
  - of the guide, [smart_filtering], [search_with_cache],
    [retry_on_rate_limit], the polling worker and [APIMonitor].

  JavaScript numbers are IEEE 754 binary64 values.  The arithmetic that the
  code performs on them is kept behind the interface [JsNumber], with two
  implementations: exact rationals, and the kernel's binary64 floats. *)

From Stdlib Require Import Bool Arith List String Ascii ZArith NArith QArith Qround Qminmax Qabs Lia Lqa.
From Stdlib Require Import Decimal DecimalString DecimalN DecimalNat.
From Stdlib Require Import Permutation Sorted.
From Stdlib Require PrimFloat FloatOps SpecFloat FloatAxioms.
Import ListNotations.

Set Implicit Arguments.

(* ================================================================== *)
(** ** Strings *)

Module Str.

Local Open Scope string_scope.

Fixpoint take (n : nat) (s : string) : string :=
  match n, s with
  | S n', String c s' => String c (take n' s')
  | _, _ => EmptyString
  end.

Fixpoint drop (n : nat) (s : string) : string :=
  match n, s with
  | S n', String _ s' => drop n' s'
  | _, _ => s
  end.

Fixpoint repeat (c : ascii) (n : nat) : string :=
  match n with
  | O => EmptyString
  | S n' => String c (repeat c n')
  end.

Fixpoint all (p : ascii -> bool) (s : string) : bool :=
  match s with
  | EmptyString => true
  | String c s' => p c && all p s'
  end.

Fixpoint remove (c : ascii) (s : string) : string :=
  match s with
  | EmptyString => EmptyString
  | String d s' => if Ascii.eqb c d then remove c s' else String d (remove c s')
  end.

(** [String.prototype.toLowerCase] on the ASCII letters. *)
Definition lower (c : ascii) : ascii :=
  let n := nat_of_ascii c in
  if (65 <=? n)%nat && (n <=? 90)%nat then ascii_of_nat (n + 32) else c.

Fixpoint toLowerCase (s : string) : string :=
  match s with
  | EmptyString => EmptyString
  | String c s' => String (lower c) (toLowerCase s')
  end.

(** [needle in haystack] of Python, [haystack.includes(needle)] of JS. *)
Fixpoint includes (needle haystack : string) : bool :=
  prefix needle haystack
  || match haystack with
     | EmptyString => false
     | String _ rest => includes needle rest
     end.

End Str.

(* ================================================================== *)
(** ** [Number.prototype.toFixed]

  A finite binary64 value is a rational number, and [toFixed] is specified
  on that exact value (ECMAScript, Number.prototype.toFixed, steps 6 to
  10): the sign is split off, the magnitude is scaled by [10^f] and rounded
  to the nearest integer [n], the larger one on a tie, and [n] is printed
  with [f] digits after the point.  A number that rounds to zero keeps its
  sign: -0.0002 is printed "-0.000".  The embedding covers the magnitudes
  below [10^21], where the result is in fixed notation; latitudes and
  longitudes are far inside. *)

Module Fixed.

Local Open Scope string_scope.

(** The integer [n] for which [n - y] is as close to zero as possible, the
    larger [n] when there are two ([y] is not negative here). *)
Definition nearest (y : Q) : N := Z.to_N (Qfloor (y + (1 # 2))).

(** Steps 6 and 9: the sign and the scaled, rounded magnitude. *)
Definition rounded (f : nat) (x : Q) : bool * N :=
  let neg := negb (Qle_bool 0 x) in
  (neg, nearest ((if neg then - x else x) * inject_Z (10 ^ Z.of_nat f))).

Definition digits (n : N) : string := NilEmpty.string_of_uint (N.to_uint n).

(** Step 9.c: left-pad with zeros to [f + 1] digits, then put the point
    before the last [f] digits. *)
Definition pad (f : nat) (m : string) : string :=
  if (String.length m <=? f)%nat
  then Str.repeat "0" (f + 1 - String.length m) ++ m
  else m.

Definition point (f : nat) (m : string) : string :=
  match f with
  | O => m
  | _ =>
      let m := pad f m in
      let k := String.length m in
      Str.take (k - f) m ++ "." ++ Str.drop (k - f) m
  end.

Definition print (f : nat) (r : bool * N) : string :=
  (if fst r then "-" else "") ++ point f (digits (snd r)).

Definition toFixed (f : nat) (x : Q) : string := print f (rounded f x).

(** Reading a printed value back. *)
Definition parse (s : string) : option (bool * N) :=
  let '(neg, body) :=
    match s with
    | String "-" rest => (true, rest)
    | _ => (false, s)
    end in
  option_map (fun d => (neg, N.of_uint d))
             (NilEmpty.uint_of_string (Str.remove "." body)).

Definition is_digit (c : ascii) : bool :=
  let n := nat_of_ascii c in (48 <=? n)%nat && (n <=? 57)%nat.

(** The characters a printed value is made of. *)
Definition is_fixed_char (c : ascii) : bool :=
  is_digit c || Ascii.eqb c "-" || Ascii.eqb c ".".

End Fixed.

(* ================================================================== *)
(** ** JavaScript numbers

    The operations the dashboard applies to numbers.  [js_lit q] is the
    number a decimal literal or a JSON number [q] denotes; [js_truthy] is
    ToBoolean, as in [x || 0]. *)

Class JsNumber (num : Type) : Type := {
  js_lit : Q -> num;
  js_add : num -> num -> num;
  js_sub : num -> num -> num;
  js_div : num -> num -> num;
  js_max : num -> num -> num;
  js_ltb : num -> num -> bool;
  js_leb : num -> num -> bool;
  js_truthy : num -> bool
}.

Definition js_of_nat {num} `{JsNumber num} (n : nat) : num :=
  js_lit (inject_Z (Z.of_nat n)).

(** [x || 0]. *)
Definition or_zero {num} `{JsNumber num} (x : num) : num :=
  if js_truthy x then x else js_lit 0.

(** Exact arithmetic: every operation returns the real result.  (A division
    by zero does not occur in the code embedded here: [count] is at least 1
    where it divides.) *)
#[export] Instance Exact : JsNumber Q := {
  js_lit q := q;
  js_add := Qplus;
  js_sub := Qminus;
  js_div := Qdiv;
  js_max a b := if Qle_bool a b then b else a;
  js_ltb a b := negb (Qle_bool b a);
  js_leb := Qle_bool;
  js_truthy x := negb (Qeq_bool x 0)
}.

(** IEEE 754 binary64, the arithmetic JavaScript runs: every operation rounds
    to the nearest representable value, ties to even. *)
Module Binary64.

(** The binary64 value nearest to an integer. *)
Definition of_Z (z : Z) : PrimFloat.float :=
  FloatOps.SF2Prim (SpecFloat.binary_normalize FloatOps.prec FloatOps.emax z 0 false).

(** A decimal literal denotes the binary64 value nearest to it: the correctly
    rounded quotient, numerator and denominator being below [2^53]. *)
Definition lit (q : Q) : PrimFloat.float :=
  PrimFloat.div (of_Z (Qnum q)) (of_Z (Zpos (Qden q))).

(** [Math.max]: NaN if an argument is NaN, and [+0] is larger than [-0]. *)
Definition max (a b : PrimFloat.float) : PrimFloat.float :=
  if PrimFloat.is_nan a || PrimFloat.is_nan b then PrimFloat.nan
  else if PrimFloat.ltb a b then b
  else if PrimFloat.ltb b a then a
  else if PrimFloat.get_sign a then b else a.

Definition truthy (x : PrimFloat.float) : bool :=
  negb (PrimFloat.is_zero x || PrimFloat.is_nan x).

(** The rational number a finite binary64 value is (0 for the others). *)
Definition to_Q (x : PrimFloat.float) : Q :=
  match FloatOps.Prim2SF x with
  | SpecFloat.S754_finite s m e =>
      inject_Z (if s then Zneg m else Zpos m) * Qpower 2 e
  | _ => 0
  end.

End Binary64.

#[export] Instance Binary64_number : JsNumber PrimFloat.float := {
  js_lit := Binary64.lit;
  js_add := PrimFloat.add;
  js_sub := PrimFloat.sub;
  js_div := PrimFloat.div;
  js_max := Binary64.max;
  js_ltb := PrimFloat.ltb;
  js_leb := PrimFloat.leb;
  js_truthy := Binary64.truthy
}.

(** The value of a coordinate written as the decimal literal [q]: the exact
    value of the nearest binary64 number.  Coordinates take part in no
    arithmetic, they are only printed by [toFixed], so they are carried by
    their exact value. *)
Definition coord (q : Q) : Q := Qred (Binary64.to_Q (Binary64.lit q)).

(* ================================================================== *)
(** ** Alerts

    The alert objects of the dashboard, as the API returns them and as
    [getMockTweets] writes them.  A field the code tests for presence is an
    option.  A number that is absent behaves, in every use made of it here,
    as NaN does ([x || 0] is 0, a sum or a [Math.max] with it is NaN), so the
    numeric fields are numbers.  The coordinates are a latitude and a
    longitude, each the exact value of a binary64 number. *)

Record PriorityFactors (num : Type) : Type := {
  base_confidence : num;
  keyword_boost : num;
  location_boost : num;
  urgency_boost : num;
  factors_geolocation_confidence : num
}.

Record Tweet (num : Type) : Type := {
  id : option string;
  text : string;
  is_disaster : bool;
  confidence : num;
  priority_score : num;
  coordinates : option (Q * Q);
  geolocation_confidence : num;
  priority_factors : option (PriorityFactors num);
  created_at : option string;
  timestamp : option Z;
  simulation : bool
}.

(* ================================================================== *)
(** ** components/DisasterHeatmap.jsx: [useHeatmapData] *)

(** An entry of [locationGroups]. *)
Module Group.
Record t (num : Type) : Type := {
  coordinates : Q * Q;
  tweets : list (Tweet num);
  totalPriority : num;
  maxPriority : num;
  count : nat
}.
End Group.

(** An element of the returned array: [{...group, avgPriority, intensity}]. *)
Record Cluster (num : Type) : Type := {
  group :> Group.t num;
  avgPriority : num;
  intensity : num
}.

(** [locationGroups] is a plain object with string keys, none of which is an
    array index or a property of [Object.prototype] (each holds a comma):
    [Object.values] lists the entries in the order the keys were added. *)
Definition Groups (num : Type) : Type := list (string * Group.t num).

Section Heatmap.

Context {num : Type} `{JsNumber num}.

Local Open Scope string_scope.

(** [`${coordinates[0].toFixed(3)},${coordinates[1].toFixed(3)}`] *)
Definition keyOf (c : Q * Q) : string :=
  Fixed.toFixed 3 (fst c) ++ "," ++ Fixed.toFixed 3 (snd c).

Fixpoint lookup (key : string) (o : Groups num) : option (Group.t num) :=
  match o with
  | [] => None
  | (k, g) :: o' => if String.eqb key k then Some g else lookup key o'
  end.

Fixpoint update (key : string) (f : Group.t num -> Group.t num) (o : Groups num)
  : Groups num :=
  match o with
  | [] => []
  | (k, g) :: o' =>
      if String.eqb key k then (k, f g) :: o' else (k, g) :: update key f o'
  end.

Definition newGroup (c : Q * Q) : Group.t num :=
  {| Group.coordinates := c;
     Group.tweets := [];
     Group.totalPriority := js_lit 0;
     Group.maxPriority := js_lit 0;
     Group.count := 0 |}.

(** The four updates of a group for one tweet. *)
Definition record (tweet : Tweet num) (g : Group.t num) : Group.t num :=
  {| Group.coordinates := Group.coordinates g;
     Group.tweets := (Group.tweets g ++ [tweet])%list;
     Group.totalPriority := js_add (Group.totalPriority g) (priority_score tweet);
     Group.maxPriority := js_max (Group.maxPriority g) (priority_score tweet);
     Group.count := Group.count g + 1 |}.

(** The body of [tweets.forEach(tweet => ...)]. *)
Definition addTweet (locationGroups : Groups num) (tweet : Tweet num) : Groups num :=
  match coordinates tweet with
  | None => locationGroups
  | Some c =>
      let key := keyOf c in
      let locationGroups :=
        match lookup key locationGroups with
        | None => (locationGroups ++ [(key, newGroup c)])%list
        | Some _ => locationGroups
        end in
      update key (record tweet) locationGroups
  end.

Definition finish (g : Group.t num) : Cluster num :=
  {| group := g;
     avgPriority := js_div (Group.totalPriority g) (js_of_nat (Group.count g));
     intensity := Group.maxPriority g |}.

(** The hook, on an array.  (The copy of it in the feature notes has no
    guard for the empty array, where the loop and the map give the empty
    array too.) *)
Definition useHeatmapData (tweets : list (Tweet num)) : list (Cluster num) :=
  match tweets with
  | [] => []
  | _ => map finish (map snd (fold_left addTweet tweets []))
  end.

(** The same loop as a transition system: one rule for each path through the
    body of the callback, on the tweets still to visit and [locationGroups]. *)
Inductive forEach : list (Tweet num) -> Groups num -> Groups num -> Prop :=
| forEach_done : forall o,
    forEach [] o o
| forEach_no_coordinates : forall tweet rest o o',
    coordinates tweet = None ->
    forEach rest o o' ->
    forEach (tweet :: rest) o o'
| forEach_new_key : forall tweet rest c o o',
    coordinates tweet = Some c ->
    lookup (keyOf c) o = None ->
    forEach rest (update (keyOf c) (record tweet) (o ++ [(keyOf c, newGroup c)])%list) o' ->
    forEach (tweet :: rest) o o'
| forEach_known_key : forall tweet rest c g o o',
    coordinates tweet = Some c ->
    lookup (keyOf c) o = Some g ->
    forEach rest (update (keyOf c) (record tweet) o) o' ->
    forEach (tweet :: rest) o o'.

(** A run of the hook on [tweets] that returns [result]. *)
Inductive runs : list (Tweet num) -> list (Cluster num) -> Prop :=
| runs_empty : runs [] []
| runs_groups : forall tweet rest o,
    forEach (tweet :: rest) [] o ->
    runs (tweet :: rest) (map finish (map snd o)).

(** What the statements about a cluster refer to. *)
Definition scores (ts : list (Tweet num)) : list num := map (@priority_score num) ts.

(** The sum of a list, added from the left to 0. *)
Definition sum (xs : list num) : num := fold_left js_add xs (js_lit 0).

(** [Math.max] over 0 and the numbers of a list, taken one by one. *)
Definition maxFromZero (xs : list num) : num := fold_left js_max xs (js_lit 0).

Definition hasKey (key : string) (tweet : Tweet num) : bool :=
  match coordinates tweet with
  | None => false
  | Some c => String.eqb (keyOf c) key
  end.

(** The tweets of a list that carry a key, in the order of the list. *)
Definition members (key : string) (ts : list (Tweet num)) : list (Tweet num) :=
  filter (hasKey key) ts.

(** The group of a non-empty list of members, the first of which has the
    coordinates [c]. *)
Definition groupOf (c : Q * Q) (ms : list (Tweet num)) : Group.t num :=
  {| Group.coordinates := c;
     Group.tweets := ms;
     Group.totalPriority := sum (scores ms);
     Group.maxPriority := maxFromZero (scores ms);
     Group.count := List.length ms |}.

(** [locationGroups] after the tweets [ts]: the keys are distinct, every
    entry is the group of the tweets of [ts] that carry its key, and every
    key carried in [ts] has an entry. *)
Definition grouped (ts : list (Tweet num)) (o : Groups num) : Prop :=
  NoDup (map fst o)
  /\ (forall key g, In (key, g) o ->
        exists first c rest,
          members key ts = first :: rest /\ coordinates first = Some c
          /\ g = groupOf c (members key ts))
  /\ (forall tweet c, In tweet ts -> coordinates tweet = Some c ->
        In (keyOf c) (map fst o)).

End Heatmap.

(* ================================================================== *)
(** ** App.jsx *)

Inductive ApiStatus : Type := checking | online | offline.

(** The component state ([useState]); [lastUpdate] and the timestamps are
    milliseconds since the epoch. *)
Record AppState (num : Type) : Type := {
  tweets : list (Tweet num);
  selectedTweet : option nat;
  loading : bool;
  lastUpdate : Z;
  streamingActive : bool;
  apiStatus : ApiStatus
}.

(** What [await fetch(...)] followed by [await response.json()] comes to
    inside a [try]: a body when [response.ok], a status otherwise, or an
    exception, which the [catch] takes whatever its cause. *)
Inductive Fetch (A : Type) : Type :=
| fetch_ok (data : A)
| fetch_status (status : nat)
| fetch_error.

Arguments fetch_status {A} status.
Arguments fetch_error {A}.

(** The body of GET /tweets/live. *)
Record LiveData (num : Type) : Type := {
  live_tweets : option (list (Tweet num));
  streaming_active : option bool
}.

(** What one run of [loadTweets] meets outside the component: the three
    responses, [Date.now()] (one instant for the run), the offset
    [Math.random() * 3600000] drawn for the element at an index (in
    milliseconds), and [new Date(string)]. *)
Record World (num : Type) : Type := {
  health_response : Fetch (option bool);
  start_response : Fetch unit;
  live_response : Fetch (LiveData num);
  now : Z;
  random_offset : nat -> Z;
  parse_date : string -> Z
}.

Inductive PriorityLevel : Type := CRITICAL | HIGH | MEDIUM | LOW.

(** A row of the "High Priority Alerts" card: the key, the badge, the
    numbers it shows (before they are scaled to percent and printed) and the
    coordinates as printed. *)
Record FeedItem (num : Type) : Type := {
  item_key : option string;
  item_level : PriorityLevel;
  item_selected : bool;
  item_timestamp : option Z;
  item_simulation : bool;
  item_text : string;
  item_confidence : num;
  item_priority : num;
  item_coordinates : option (string * string)
}.

Fixpoint mapi_from {A B : Type} (f : A -> nat -> B) (index : nat) (l : list A) : list B :=
  match l with
  | [] => []
  | x :: l' => f x index :: mapi_from f (S index) l'
  end.

(** [array.map((element, index) => ...)] *)
Definition mapi {A B : Type} (f : A -> nat -> B) (l : list A) : list B :=
  mapi_from f 0 l.

Section Sort.

Context {num : Type} `{JsNumber num} {A : Type}.

Variable comparefn : A -> A -> num.

(** [y] is placed before [x] when [comparefn(y, x) < 0]. *)
Definition before (y x : A) : bool := js_ltb (comparefn y x) (js_lit 0).

Fixpoint insert (x : A) (sorted : list A) : list A :=
  match sorted with
  | [] => [x]
  | y :: rest => if before y x then y :: insert x rest else x :: y :: rest
  end.

(** [Array.prototype.sort(comparefn)].  ECMAScript (2019 on) fixes the result
    for a consistent comparator: the elements in the order of [comparefn],
    those that compare equal in their original order.  The engine's algorithm
    is not part of that contract; insertion from the right, each element
    passing only the elements that are to precede it, stands for it. *)
Definition sort (l : list A) : list A := fold_right insert [] l.

End Sort.

Section App.

Context {num : Type} `{JsNumber num}.

Local Open Scope string_scope.

(** A string that is present and not empty: what [s || ...] and
    [s ? ... : ...] test. *)
Definition nonempty (s : option string) : option string :=
  match s with
  | Some EmptyString => None
  | _ => s
  end.

Definition getPriorityLevel (score : num) : PriorityLevel :=
  if js_leb (js_lit 0.9) score then CRITICAL
  else if js_leb (js_lit 0.7) score then HIGH
  else if js_leb (js_lit 0.5) score then MEDIUM
  else LOW.

Definition selected (s : option nat) (index : nat) : bool :=
  match s with
  | Some i => Nat.eqb i index
  | None => false
  end.

(** The callback of [tweets.map((tweet, index) => ...)] in the alert card. *)
Definition renderItem (sel : option nat) (tweet : Tweet num) (index : nat) : FeedItem num :=
  {| item_key := id tweet;
     item_level := getPriorityLevel (or_zero (priority_score tweet));
     item_selected := selected sel index;
     item_timestamp := timestamp tweet;
     item_simulation := simulation tweet;
     item_text := text tweet;
     item_confidence := or_zero (confidence tweet);
     item_priority := or_zero (priority_score tweet);
     item_coordinates :=
       option_map (fun c => (Fixed.toFixed 4 (fst c), Fixed.toFixed 4 (snd c)))
                  (coordinates tweet) |}.

Definition feed (st : AppState num) : list (FeedItem num) :=
  mapi (renderItem (selectedTweet st)) (tweets st).

(** What the page shows of the alerts: the feed and the heatmap, both from
    the [tweets] of the state. *)
Definition view (st : AppState num) : list (FeedItem num) * list (Cluster num) :=
  (feed st, useHeatmapData (tweets st)).

Definition setTweets (v : list (Tweet num)) (st : AppState num) : AppState num :=
  {| tweets := v; selectedTweet := selectedTweet st; loading := loading st;
     lastUpdate := lastUpdate st; streamingActive := streamingActive st;
     apiStatus := apiStatus st |}.

Definition setLoading (v : bool) (st : AppState num) : AppState num :=
  {| tweets := tweets st; selectedTweet := selectedTweet st; loading := v;
     lastUpdate := lastUpdate st; streamingActive := streamingActive st;
     apiStatus := apiStatus st |}.

Definition setLastUpdate (v : Z) (st : AppState num) : AppState num :=
  {| tweets := tweets st; selectedTweet := selectedTweet st; loading := loading st;
     lastUpdate := v; streamingActive := streamingActive st;
     apiStatus := apiStatus st |}.

Definition setStreamingActive (v : bool) (st : AppState num) : AppState num :=
  {| tweets := tweets st; selectedTweet := selectedTweet st; loading := loading st;
     lastUpdate := lastUpdate st; streamingActive := v;
     apiStatus := apiStatus st |}.

Definition setApiStatus (v : ApiStatus) (st : AppState num) : AppState num :=
  {| tweets := tweets st; selectedTweet := selectedTweet st; loading := loading st;
     lastUpdate := lastUpdate st; streamingActive := streamingActive st;
     apiStatus := v |}.

(** [x || false] and [x || []]. *)
Definition or_false (b : option bool) : bool :=
  match b with Some v => v | None => false end.

Definition or_nil {A : Type} (l : option (list A)) : list A :=
  match l with Some v => v | None => [] end.

Definition fetchLiveTweets (w : World num) (st : AppState num)
  : list (Tweet num) * AppState num :=
  match live_response w with
  | fetch_ok data =>
      (or_nil (live_tweets data),
       setStreamingActive (or_false (streaming_active data)) st)
  | fetch_status _ => ([], st)
  | fetch_error => ([], st)
  end.

Definition startStreaming (w : World num) (st : AppState num) : AppState num :=
  match start_response w with
  | fetch_ok _ => setStreamingActive true st
  | fetch_status _ => st
  | fetch_error => st
  end.

Definition checkApiStatus (w : World num) (st : AppState num) : bool * AppState num :=
  match health_response w with
  | fetch_ok health =>
      (true, setStreamingActive (or_false health) (setApiStatus online st))
  | fetch_status _ => (false, setApiStatus offline st)
  | fetch_error => (false, setApiStatus offline st)
  end.

(** An entry of [getMockTweets]; the five entries differ in the fields that
    are arguments here. *)
Definition mock (w : World num) (n : string) (txt : string) (conf : Q)
  (lat lon : Q) (keyword urgency : Q) (age : Z) : Tweet num :=
  {| id := Some ("mock_" ++ n);
     text := txt;
     is_disaster := true;
     confidence := js_lit conf;
     priority_score := js_lit 1.0;
     coordinates := Some (coord lat, coord lon);
     geolocation_confidence := js_lit 0.9;
     priority_factors :=
       Some {| base_confidence := js_lit conf;
               keyword_boost := js_lit keyword;
               location_boost := js_lit 0.2;
               urgency_boost := js_lit urgency;
               factors_geolocation_confidence := js_lit 0.9 |};
     created_at := None;
     timestamp := Some (now w - age)%Z;
     simulation := true |}.

Definition getMockTweets (w : World num) : list (Tweet num) :=
  [ mock w "1" "URGENT: Major earthquake hits downtown area, buildings collapsing!"
         0.911 37.7749 (-122.4194) 0.0 0.3 60000;
    mock w "2" "Wildfire spreading rapidly near residential areas, evacuations ordered"
         0.809 34.0522 (-118.2437) 0.1 0.15 120000;
    mock w "3" "Flash flood warning issued, water levels rising quickly"
         0.840 29.7604 (-95.3698) 0.1 0.15 180000;
    mock w "4" "Tornado spotted moving towards city center"
         0.755 35.5653 (-96.9289) 0.0 0.15 240000;
    mock w "5" "Building explosion reported, emergency services responding"
         0.698 40.7128 (-74.0060) 0.1 0.15 300000 ].

(** [(a, b) => (b.priority_score || 0) - (a.priority_score || 0)] *)
Definition byPriority (a b : Tweet num) : num :=
  js_sub (or_zero (priority_score b)) (or_zero (priority_score a)).

(** The callback of [.map((tweet, index) => ({...tweet, id, timestamp}))]. *)
Definition stamp (w : World num) (tweet : Tweet num) (index : nat) : Tweet num :=
  {| id :=
       match nonempty (id tweet) with
       | Some i => Some i
       | None => Some ("tweet_" ++ NilEmpty.string_of_uint (Nat.to_uint index))
       end;
     text := text tweet;
     is_disaster := is_disaster tweet;
     confidence := confidence tweet;
     priority_score := priority_score tweet;
     coordinates := coordinates tweet;
     geolocation_confidence := geolocation_confidence tweet;
     priority_factors := priority_factors tweet;
     created_at := created_at tweet;
     timestamp :=
       match nonempty (created_at tweet) with
       | Some d => Some (parse_date w d)
       | None => Some (now w - random_offset w index)%Z
       end;
     simulation := simulation tweet |}.

Definition sortedTweets (w : World num) (liveTweets : list (Tweet num)) : list (Tweet num) :=
  mapi (stamp w) (sort byPriority liveTweets).

(** [loadTweets], run from the state [st].  The setters replace fields of
    the state; the [streamingActive] the function tests is the one it was
    created with, which the setters of this run do not change. *)
Definition loadTweets (w : World num) (st : AppState num) : AppState num :=
  let st1 := setLoading true st in
  let '(apiOnline, st2) := checkApiStatus w st1 in
  let st5 :=
    if apiOnline then
      let st3 := if negb (streamingActive st) then startStreaming w st2 else st2 in
      let '(liveTweets, st4) := fetchLiveTweets w st3 in
      if (0 <? List.length liveTweets)%nat
      then setTweets (sortedTweets w liveTweets) st4
      else setTweets (getMockTweets w) st4
    else setTweets (getMockTweets w) st2 in
  setLoading false (setLastUpdate (now w) st5).

End App.

(* ================================================================== *)
(** ** The provider fallback (Twitter API implementation guide)

    Python functions that call providers, catch their exceptions and return
    early.  A computation takes the list of the providers called so far and
    returns what Python returns or raises, with the list extended. *)

Module Fallback.

Inductive Provider : Type := real_api | primary_api | backup_api | simulation.

Definition Provider_eqb (a b : Provider) : bool :=
  match a, b with
  | real_api, real_api | primary_api, primary_api
  | backup_api, backup_api | simulation, simulation => true
  | _, _ => false
  end.

Inductive Result (A : Type) : Type :=
| returned (value : A)
| raised (exception : string).

Arguments raised {A} exception.

Definition M (A : Type) : Type := list Provider -> Result A * list Provider.

Definition ret {A : Type} (a : A) : M A := fun calls => (returned a, calls).

Definition bind {A B : Type} (m : M A) (k : A -> M B) : M B :=
  fun calls =>
    match m calls with
    | (returned a, calls') => k a calls'
    | (raised e, calls') => (raised e, calls')
    end.

(** [try: body  except Exception as e: handler] *)
Definition try_except {A : Type} (body : M A) (handler : string -> M A) : M A :=
  fun calls =>
    match body calls with
    | (returned a, calls') => (returned a, calls')
    | (raised e, calls') => handler e calls'
    end.

Notation "x <- m ;; k" := (bind m (fun x => k))
  (at level 61, m at next level, right associativity).

Section Services.

(** The tweets are opaque here. *)
Variable Item : Type.

(** What the [n]-th call of a provider's search does for a query and a
    maximal number of results ([n] counts from 0). *)
Variable search : Provider -> nat -> string -> nat -> Result (list Item).

Definition search_tweets (p : Provider) (query : string) (max_results : nat)
  : M (list Item) :=
  fun calls =>
    (search p (List.length (filter (Provider_eqb p) calls)) query max_results,
     calls ++ [p]).

(** [if tweets: return tweets]: an empty list is false. *)
Definition if_tweets (tweets : list Item) : option (list Item) :=
  match tweets with
  | [] => None
  | _ :: _ => Some tweets
  end.

(** [search_tweets_with_fallback]; [simulation_mode] is the attribute of the
    service.  What the function prints is left out. *)
Definition search_tweets_with_fallback (simulation_mode : bool)
  (query : string) (max_results : nat) : M (list Item) :=
  try_except
    (found <-
       (if negb simulation_mode
        then tweets <- search_tweets real_api query max_results ;;
             ret (if_tweets tweets)
        else ret None) ;;
     match found with
     | Some tweets => ret tweets
     | None => search_tweets simulation query max_results
     end)
    (fun _ => search_tweets simulation query max_results).

(** [MultiSourceTwitterService.search_tweets_resilient] *)
Definition search_tweets_resilient (query : string) (max_results : nat)
  : M (list Item) :=
  found <-
    try_except
      (tweets <- search_tweets primary_api query max_results ;;
       ret (if_tweets tweets))
      (fun _ => ret None) ;;
  match found with
  | Some tweets => ret tweets
  | None =>
      found <-
        try_except
          (tweets <- search_tweets backup_api query max_results ;;
           ret (if_tweets tweets))
          (fun _ => ret None) ;;
      match found with
      | Some tweets => ret tweets
      | None => search_tweets simulation query max_results
      end
  end.

(** A call from a fresh start: the result and the providers called, in
    order. *)
Definition run {A : Type} (m : M A) : Result A * list Provider := m [].

(** The first call of a provider failed, or returned nothing. *)
Definition raises (p : Provider) (query : string) (max_results : nat) : Prop :=
  exists e, search p 0 query max_results = raised e.

Definition returns_nothing (p : Provider) (query : string) (max_results : nat) : Prop :=
  search p 0 query max_results = returned [].

End Services.

(** The fallback as stopping at the first result that is not an error, an
    empty one included: when the first provider returns, that is the result
    and no other provider is called. *)
Definition stops_at_first_result : Prop :=
  forall (Item : Type) (search : Provider -> nat -> string -> nat -> Result (list Item))
         (query : string) (max_results : nat) (tweets : list Item),
    (search primary_api 0%nat query max_results = returned tweets ->
     run (search_tweets_resilient search query max_results)
     = (returned tweets, [primary_api]))
    /\ (search real_api 0%nat query max_results = returned tweets ->
        run (search_tweets_with_fallback search false query max_results)
        = (returned tweets, [real_api])).

(** Providers of which only the simulation has tweets. *)
Definition only_simulation (p : Provider) (n : nat) (query : string) (max_results : nat)
  : Result (list string) :=
  match p with
  | simulation => returned ["simulated tweet"%string]
  | _ => returned []
  end.

End Fallback.

(* ================================================================== *)
(** ** The priority score *)

Module Scorer.

Local Open Scope Q_scope.

(** The bonuses and keyword sets, which the spec leaves to configuration. *)
Record Config : Type := {
  urgency_keywords : list string;
  disaster_keywords : list string;
  urgency_bonus : Q;
  coordinate_bonus : Q;
  location_text_bonus : Q;
  keyword_bonus : Q;
  confidence_threshold : Q
}.

(** The text contains a term of the set, whatever the case of the letters. *)
Definition mentions (keywords : list string) (text : string) : bool :=
  existsb (fun k => Str.includes (Str.toLowerCase k) (Str.toLowerCase text)) keywords.

Definition clamp (x : Q) : Q := Qmax 0 (Qmin 1 x).

(** "Priority Score = Base Confidence + Urgency Boost + Location Boost +
    Keyword Boost" (FINAL_SYSTEM_DOCUMENTATION.md). *)
Definition total (f : PriorityFactors Q) : Q :=
  base_confidence f + urgency_boost f + location_boost f + keyword_boost f.

(** Modelled from the spec: the priority scorer of section 4.3, whose code
    (the Python backend) is not among the sources.  The base term is the
    classifier confidence; the urgency bonus and the disaster-keyword bonus
    are added once when the text contains a term of their set; the location
    bonus is the larger one for a coordinate pair resolved with confidence
    above the threshold and the smaller one for textual location evidence
    only; the sum is clamped to [0, 1]. *)
Definition factors (cfg : Config) (text : string) (classifierConfidence : Q)
  (hasExplicitCoordinate : bool) (coordinateConfidence : Q) : PriorityFactors Q :=
  {| base_confidence := classifierConfidence;
     keyword_boost :=
       if mentions (disaster_keywords cfg) text then keyword_bonus cfg else 0;
     location_boost :=
       if hasExplicitCoordinate
          && negb (Qle_bool coordinateConfidence (confidence_threshold cfg))
       then coordinate_bonus cfg
       else if negb (Qle_bool coordinateConfidence 0)
            then location_text_bonus cfg
            else 0;
     urgency_boost :=
       if mentions (urgency_keywords cfg) text then urgency_bonus cfg else 0;
     factors_geolocation_confidence := coordinateConfidence |}.

Definition score (cfg : Config) (text : string) (classifierConfidence : Q)
  (hasExplicitCoordinate : bool) (coordinateConfidence : Q) : Q :=
  clamp (total (factors cfg text classifierConfidence
                        hasExplicitCoordinate coordinateConfidence)).

(** Modelled from the spec: the ScoredAlert the scorer produces for a
    classified item (section 3): its confidence and its priority score are
    clamped to [0, 1]. *)
Definition scoreAlert (cfg : Config) (text : string) (classifierConfidence : Q)
  (coordinate : option (Q * Q)) (coordinateConfidence : Q) : Tweet Q :=
  let hasExplicitCoordinate := match coordinate with Some _ => true | None => false end in
  {| id := None;
     text := text;
     is_disaster := true;
     confidence := clamp classifierConfidence;
     priority_score :=
       score cfg text classifierConfidence hasExplicitCoordinate coordinateConfidence;
     coordinates := coordinate;
     geolocation_confidence := clamp coordinateConfidence;
     priority_factors :=
       Some (factors cfg text classifierConfidence
                     hasExplicitCoordinate coordinateConfidence);
     created_at := None;
     timestamp := None;
     simulation := false |}.

(** The urgency keywords the documentation names. *)
Definition documented_urgency_keywords : list string :=
  ["emergency"; "urgent"; "help"]%string.

(** The reading of the urgency bonus as one constant: there are a keyword
    set and an amount such that an alert carries that amount when its text
    contains a term of the set, and none otherwise. *)
Definition single_urgency_bonus (alerts : list (Tweet Q)) : Prop :=
  exists (keywords : list string) (bonus : Q),
    forall alert f, In alert alerts -> priority_factors alert = Some f ->
      urgency_boost f == (if mentions keywords (text alert) then bonus else 0).

End Scorer.

(* ================================================================== *)
(** ** What the statements below refer to *)

Section Statements.

Context {num : Type} `{JsNumber num}.

(** A number in [0, 1], by the comparisons of the arithmetic. *)
Definition in_unit_interval (x : num) : Prop :=
  js_leb (js_lit 0) x = true /\ js_leb x (js_lit 1) = true.

(** [count >= 1], [count] is the number of stored members, and
    [0 <= avgPriority <= maxPriority <= 1]. *)
Definition cluster_bounds (cl : Cluster num) : Prop :=
  (1 <= Group.count cl)%nat
  /\ Group.count cl = List.length (Group.tweets cl)
  /\ js_leb (js_lit 0) (avgPriority cl) = true
  /\ js_leb (avgPriority cl) (Group.maxPriority cl) = true
  /\ js_leb (Group.maxPriority cl) (js_lit 1) = true.

Definition heatmap_bounds : Prop :=
  forall tweets : list (Tweet num),
    Forall (fun tweet => in_unit_interval (priority_score tweet)) tweets ->
    forall cl, In cl (useHeatmapData tweets) -> cluster_bounds cl.

(** What [checkApiStatus] returns. *)
Definition apiOnline (w : World num) : bool :=
  match health_response w with
  | fetch_ok _ => true
  | _ => false
  end.

(** What [fetchLiveTweets] returns: the alerts of the body, none when the
    request fails or throws. *)
Definition fetched (w : World num) : list (Tweet num) :=
  match live_response w with
  | fetch_ok data => or_nil (live_tweets data)
  | _ => []
  end.

End Statements.

(** The priority score of an alert in [byPriority], in exact arithmetic. *)
Definition rank (tweet : Tweet Q) : Q := or_zero (priority_score tweet).

(** The alerts of a list that have a given priority score, in the order of
    the list. *)
Definition scored (s : Q) (l : list (Tweet Q)) : list (Tweet Q) :=
  filter (fun tweet => Qeq_bool (priority_score tweet) s) l.

(* ================================================================== *)
(** ** Inputs for the examples *)

(** A run in which no request succeeds. *)
Definition offline_world {num : Type} : World num :=
  {| health_response := fetch_error;
     start_response := fetch_error;
     live_response := fetch_error;
     now := 1700000000000;
     random_offset := fun _ => 0%Z;
     parse_date := fun _ => 0%Z |}.

(** An alert of priority 0.1 in San Francisco. *)
Definition tenth {num : Type} `{JsNumber num} : Tweet num :=
  {| id := Some "tenth"%string;
     text := "Smoke reported near the pier"%string;
     is_disaster := true;
     confidence := js_lit 0.1;
     priority_score := js_lit 0.1;
     coordinates := Some (coord 37.7749, coord (-122.4194));
     geolocation_confidence := js_lit 0.9;
     priority_factors := None;
     created_at := None;
     timestamp := None;
     simulation := false |}.

(** The mock alerts in exact arithmetic, and the cluster of the first. *)
Definition mock_alerts : list (Tweet Q) := getMockTweets offline_world.

Definition first_mock_cluster : Cluster Q :=
  finish (groupOf (coord 37.7749, coord (-122.4194)) (firstn 1 mock_alerts)).

(** Three alerts of priority 0.1 at one place, in binary64 arithmetic, and
    their cluster. *)
Definition three_tenths : list (Tweet PrimFloat.float) := [tenth; tenth; tenth].

Definition three_tenths_cluster : Cluster PrimFloat.float :=
  finish (groupOf (coord 37.7749, coord (-122.4194)) three_tenths).

(** An alert without coordinates, of a given name and priority. *)
Definition scored_alert (name : string) (score : Q) : Tweet Q :=
  {| id := Some name;
     text := name;
     is_disaster := true;
     confidence := 0.8;
     priority_score := score;
     coordinates := None;
     geolocation_confidence := 0;
     priority_factors := None;
     created_at := None;
     timestamp := None;
     simulation := false |}.

(** A run in which the API answers with three alerts, two of them of the
    same priority. *)
Definition live_alerts : list (Tweet Q) :=
  [scored_alert "newest" 0.5; scored_alert "middle" 0.9; scored_alert "oldest" 0.5].

Definition online_world : World Q :=
  {| health_response := fetch_ok (Some true);
     start_response := fetch_ok tt;
     live_response :=
       fetch_ok {| live_tweets := Some live_alerts; streaming_active := Some true |};
     now := 1700000000000;
     random_offset := fun _ => 0%Z;
     parse_date := fun _ => 0%Z |}.

Definition initial_state {num : Type} : AppState num :=
  {| tweets := [];
     selectedTweet := None;
     loading := false;
     lastUpdate := 0;
     streamingActive := false;
     apiStatus := checking |}.

(** A state whose first alert has no coordinates. *)
Definition mixed_state : AppState Q :=
  {| tweets := scored_alert "unplaced" 0.5 :: mock_alerts;
     selectedTweet := None;
     loading := false;
     lastUpdate := 0;
     streamingActive := false;
     apiStatus := offline |}.

(* ================================================================== *)
(** ** components/DisasterHeatmap.jsx: the map

    The circle markers multiply and take a minimum, which the clustering
    does not: the two operations are an interface of their own, with the
    same two implementations. *)

Class JsProduct (num : Type) : Type := {
  js_mul : num -> num -> num;
  js_min : num -> num -> num
}.

#[export] Instance Exact_product : JsProduct Q := {
  js_mul := Qmult;
  js_min a b := if Qle_bool a b then a else b
}.

(** [Math.min] of binary64: NaN if an argument is NaN, and [-0] is smaller
    than [+0]. *)
Definition Binary64_min (a b : PrimFloat.float) : PrimFloat.float :=
  if PrimFloat.is_nan a || PrimFloat.is_nan b then PrimFloat.nan
  else if PrimFloat.ltb a b then a
  else if PrimFloat.ltb b a then b
  else if PrimFloat.get_sign a then a else b.

#[export] Instance Binary64_product : JsProduct PrimFloat.float := {
  js_mul := PrimFloat.mul;
  js_min := Binary64_min
}.

(** What a circle marker is given. *)
Record Marker (num : Type) : Type := {
  center : Q * Q;
  radius : num;
  fillColor : string;
  fillOpacity : num
}.

(** What the popup of a marker shows: the location as printed, the count,
    the two numbers (before they are scaled to percent and printed), the
    texts of the recent alerts (each is shown between quotes and followed by
    three dots) and the number in "+n more alerts", if the line is there. *)
Record Popup (num : Type) : Type := {
  popup_location : string * string;
  popup_count : nat;
  popup_maxPriority : num;
  popup_avgPriority : num;
  popup_recent : list string;
  popup_more : option nat
}.

(** [array.findIndex(p)]: the first index at which [p] holds, -1 when it
    holds nowhere. *)
Fixpoint findIndex {A : Type} (p : A -> bool) (l : list A) : Z :=
  match l with
  | [] => -1
  | x :: rest =>
      if p x then 0
      else let i := findIndex p rest in
           if (i <? 0)%Z then -1 else (i + 1)%Z
  end.

Section Map.

Context {num : Type} `{JsNumber num} `{JsProduct num}.

Local Open Scope string_scope.

(** [tweet => tweet.coordinates], as a condition. *)
Definition hasCoordinates (tweet : Tweet num) : bool :=
  match coordinates tweet with
  | Some _ => true
  | None => false
  end.

Definition validTweets (tweets : list (Tweet num)) : list (Tweet num) :=
  filter hasCoordinates tweets.

(** [FitBounds]: the points [L.latLngBounds] is given when [map.fitBounds]
    is called, and [None] when it is not called. *)
Definition FitBounds (tweets : list (Tweet num)) : option (list (option (Q * Q))) :=
  match validTweets tweets with
  | [] => None
  | valid => Some (map (@coordinates num) valid)
  end.

Definition getPriorityColor (score : num) : string :=
  if js_leb (js_lit 0.9) score then "#ef4444"
  else if js_leb (js_lit 0.7) score then "#f97316"
  else if js_leb (js_lit 0.5) score then "#eab308"
  else "#22c55e".

Definition getMarkerRadius (count : nat) (intensity : num) : num :=
  let baseRadius := js_lit 8 in
  let countMultiplier := js_min (js_mul (js_of_nat count) (js_lit 2)) (js_lit 20) in
  let intensityMultiplier := js_mul intensity (js_lit 15) in
  js_add (js_add baseRadius countMultiplier) intensityMultiplier.

Definition getMarkerOpacity (intensity : num) : num :=
  js_max (js_lit 0.3) (js_mul intensity (js_lit 0.8)).

(** The callback of [heatmapData.map((location, index) => ...)]: the marker. *)
Definition marker (location : Cluster num) : Marker num :=
  {| center := Group.coordinates location;
     radius := getMarkerRadius (Group.count location) (intensity location);
     fillColor := getPriorityColor (intensity location);
     fillOpacity := getMarkerOpacity (intensity location) |}.

Definition markers (tweets : list (Tweet num)) : list (Marker num) :=
  map marker (useHeatmapData tweets).

(** The click handler of a marker; [None] when [onTweetSelect] is not
    called.  [same] is [===] on two alerts, the identity of objects.  The
    members of a cluster are the objects of the list, so the first member is
    found at its own place; an alert before it with the same fields would
    carry the key of the cluster and be the first member itself.  Identity
    can thus be read as the equality of the fields. *)
Definition markerClick (same : Tweet num -> Tweet num -> bool)
  (tweets : list (Tweet num)) (location : Cluster num) : option Z :=
  match Group.tweets location with
  | [] => None
  | first :: _ => Some (findIndex (fun t => same t first) tweets)
  end.

(** The popup of a marker; [slice(0, 2)] and [substring(0, 50)]. *)
Definition popup (location : Cluster num) : Popup num :=
  {| popup_location :=
       (Fixed.toFixed 4 (fst (Group.coordinates location)),
        Fixed.toFixed 4 (snd (Group.coordinates location)));
     popup_count := Group.count location;
     popup_maxPriority := Group.maxPriority location;
     popup_avgPriority := avgPriority location;
     popup_recent :=
       map (fun tweet => Str.take 50 (text tweet)) (firstn 2 (Group.tweets location));
     popup_more :=
       if (2 <? List.length (Group.tweets location))%nat
       then Some (List.length (Group.tweets location) - 2)%nat
       else None |}.

(** The first two lines of the "Heatmap Stats": "Total Alerts" and "Active
    Locations". *)
Definition totalAlerts (tweets : list (Tweet num)) : nat := List.length tweets.

Definition activeLocations (tweets : list (Tweet num)) : nat :=
  List.length (useHeatmapData tweets).

End Map.

(** The key of a cluster, from the coordinates it is drawn at. *)
Definition clusterKey {num : Type} (cl : Cluster num) : string :=
  keyOf (Group.coordinates cl).

(** The position of a level on the scale from LOW to CRITICAL. *)
Definition severity (level : PriorityLevel) : nat :=
  match level with
  | LOW => 0
  | MEDIUM => 1
  | HIGH => 2
  | CRITICAL => 3
  end.

(** The level the colour of a marker stands for (the legend of the map). *)
Definition legend (color : string) : option PriorityLevel :=
  if String.eqb color "#ef4444" then Some CRITICAL
  else if String.eqb color "#f97316" then Some HIGH
  else if String.eqb color "#eab308" then Some MEDIUM
  else if String.eqb color "#22c55e" then Some LOW
  else None.

(* ================================================================== *)
(** ** App.jsx: the rows of the feed *)

(** [`${n}`] for an integer. *)
Definition show_int (z : Z) : string := NilEmpty.string_of_int (Z.to_int z).

(** [getTimeAgo], at the instant [now]; both instants are milliseconds since
    the epoch, and [Math.floor] of a quotient of integers is [Z.div]. *)
Definition getTimeAgo (now timestamp : Z) : string :=
  let diff := ((now - timestamp) / 1000)%Z in
  if (diff <? 60)%Z then (show_int diff ++ "s ago")%string
  else if (diff <? 3600)%Z then (show_int (diff / 60) ++ "m ago")%string
  else if (diff <? 86400)%Z then (show_int (diff / 3600) ++ "h ago")%string
  else (show_int (diff / 86400) ++ "d ago")%string.

Section Selection.

Context {num : Type} `{JsNumber num}.

Definition setSelectedTweet (v : option nat) (st : AppState num) : AppState num :=
  {| tweets := tweets st; selectedTweet := v; loading := loading st;
     lastUpdate := lastUpdate st; streamingActive := streamingActive st;
     apiStatus := apiStatus st |}.

(** [onClick={() => setSelectedTweet(isSelected ? null : index)}] *)
Definition clickRow (index : nat) (st : AppState num) : AppState num :=
  setSelectedTweet
    (if selected (selectedTweet st) index then None else Some index) st.

(** The alert of the "Alert Details" card, which is there when
    [selectedTweet !== null && tweets[selectedTweet]]. *)
Definition details (st : AppState num) : option (Tweet num) :=
  match selectedTweet st with
  | Some i => nth_error (tweets st) i
  | None => None
  end.

End Selection.

(* ================================================================== *)
(** ** The Twitter API implementation guide: the other services

    A tweet as the Python services pass it is a dict; the record holds the
    keys the functions below read.  The guide does not say what an id is:
    the polling compares ids with [<=] and tests one for truth, as integers
    are here.  [t.get('lang')] is [None] for a tweet without the key. *)

Record Status : Type := {
  status_id : Z;
  status_text : string;
  status_lang : option string;
  status_is_disaster : bool
}.

(** A list that keeps some elements of another, in their order. *)
Inductive Subsequence {A : Type} : list A -> list A -> Prop :=
| Subsequence_nil : Subsequence [] []
| Subsequence_keep : forall x l l', Subsequence l l' -> Subsequence (x :: l) (x :: l')
| Subsequence_drop : forall x l l', Subsequence l l' -> Subsequence l (x :: l').

(** [OptimizedTwitterService] *)
Module Optimized.

Import Fallback.

Local Open Scope string_scope.

Section Filtering.

(** [hash] of Python on strings: a function, fixed for the run of the
    interpreter. *)
Variable hash : string -> Z.

(** [hash(tweet['text'].lower())], on ASCII letters. *)
Definition text_hash (tweet : Status) : Z := hash (Str.toLowerCase (status_text tweet)).

(** The loop that fills [unique_tweets], with the set [seen_texts]. *)
Fixpoint unique_tweets (seen_texts : list Z) (tweets : list Status) : list Status :=
  match tweets with
  | [] => []
  | tweet :: rest =>
      if existsb (Z.eqb (text_hash tweet)) seen_texts
      then unique_tweets seen_texts rest
      else tweet :: unique_tweets (text_hash tweet :: seen_texts) rest
  end.

(** [t.get('lang') == 'en'] *)
Definition english (t : Status) : bool :=
  match status_lang t with
  | Some l => String.eqb l "en"
  | None => false
  end.

(** [20 <= len(t['text']) <= 280] *)
Definition quality (t : Status) : bool :=
  (20 <=? String.length (status_text t))%nat
  && (String.length (status_text t) <=? 280)%nat.

Definition smart_filtering (tweets : list Status) : list Status :=
  let unique_tweets := unique_tweets [] tweets in
  let english_tweets := filter english unique_tweets in
  let quality_tweets := filter quality english_tweets in
  quality_tweets.

End Filtering.

Section Cache.

Context {num : Type} `{JsNumber num}.

Variable Item : Type.

(** What the [n]-th call of [search_tweets_real] does ([n] counts from 0);
    the class takes the method from the service it is mixed into. *)
Variable search_tweets_real : nat -> string -> nat -> Result (list Item).

(** A dict with string keys. *)
Definition Dict (V : Type) : Type := list (string * V).

Fixpoint get {V : Type} (key : string) (d : Dict V) : option V :=
  match d with
  | [] => None
  | (k, v) :: d' => if String.eqb key k then Some v else get key d'
  end.

Fixpoint set {V : Type} (key : string) (v : V) (d : Dict V) : Dict V :=
  match d with
  | [] => [(key, v)]
  | (k, x) :: d' => if String.eqb key k then (k, v) :: d' else (k, x) :: set key v d'
  end.

(** The service: [self.cache], and the number of calls of
    [search_tweets_real] made so far. *)
Record Service : Type := {
  cache : Dict (num * list Item);
  requests : nat
}.

(** [f"{query}_{max_results}"] *)
Definition cache_key (query : string) (max_results : nat) : string :=
  query ++ "_" ++ NilEmpty.string_of_uint (Nat.to_uint max_results).

(** [search_with_cache], at the time [now] ([time.time()], in seconds). *)
Definition search_with_cache (now : num) (query : string) (max_results : nat)
  (s : Service) : Result (list Item) * Service :=
  let key := cache_key query max_results in
  let fetch :=
    match search_tweets_real (requests s) query max_results with
    | returned tweets =>
        (returned tweets,
         {| cache := set key (now, tweets) (cache s); requests := S (requests s) |})
    | raised e => (raised e, {| cache := cache s; requests := S (requests s) |})
    end in
  match get key (cache s) with
  | Some (cached_time, cached_data) =>
      if js_ltb (js_sub now cached_time) (js_lit 300)
      then (returned cached_data, s)
      else fetch
  | None => fetch
  end.

End Cache.

End Optimized.

(** [retry_on_rate_limit] *)
Module Retry.

Inductive Exception : Type :=
| RateLimitError
| OtherException (message : string).

Inductive Outcome (A : Type) : Type :=
| value (a : A)
| raise (e : Exception).

Arguments raise {A} e.

(** The calls of the wrapped function made so far and the arguments of
    [time.sleep], in order. *)
Record Trace : Type := {
  calls : nat;
  sleeps : list nat
}.

Section Wrapper.

Variable A : Type.

(** What the [n]-th call of the wrapped function does, with the arguments
    of the wrapper ([n] counts from 0). *)
Variable func : nat -> Outcome A.

(** [for attempt in range(max_retries)], from [attempt] on, with
    [remaining] turns to go; after the loop, the [raise]. *)
Fixpoint attempts (attempt remaining : nat) (tr : Trace) : Outcome A * Trace :=
  match remaining with
  | O => (raise (OtherException "Max retries exceeded"), tr)
  | S remaining' =>
      match func (calls tr) with
      | value a => (value a, {| calls := S (calls tr); sleeps := sleeps tr |})
      | raise RateLimitError =>
          let wait_time := (2 ^ attempt)%nat in
          attempts (S attempt) remaining'
                   {| calls := S (calls tr); sleeps := sleeps tr ++ [wait_time] |}
      | raise e => (raise e, {| calls := S (calls tr); sleeps := sleeps tr |})
      end
  end.

Definition wrapper (max_retries : nat) : Outcome A * Trace :=
  attempts 0 max_retries {| calls := 0; sleeps := [] |}.

End Wrapper.

End Retry.

(** [_start_polling_stream] *)
Module Polling.

Import Fallback.

(** [last_tweet_id and tweet['id'] <= last_tweet_id]: [None] and 0 are
    false. *)
Definition seen (last_tweet_id : option Z) (tweet : Status) : bool :=
  match last_tweet_id with
  | Some last => negb (last =? 0)%Z && (status_id tweet <=? last)%Z
  | None => false
  end.

(** The loop that fills [new_tweets], up to its [break]. *)
Fixpoint new_tweets (last_tweet_id : option Z) (tweets : list Status) : list Status :=
  match tweets with
  | [] => []
  | tweet :: rest =>
      if seen last_tweet_id tweet then []
      else tweet :: new_tweets last_tweet_id rest
  end.

(** The worker between two turns of its loop: [last_tweet_id], and the
    arguments [callback_function] was called with, in order. *)
Record Worker : Type := {
  last_tweet_id : option Z;
  delivered : list (list Status)
}.

(** One turn of [while self.is_streaming], in which the search returns or
    raises; the callback returns. *)
Definition poll (s : Worker) (response : Result (list Status)) : Worker :=
  match response with
  | raised _ => s
  | returned tweets =>
      match new_tweets (last_tweet_id s) tweets with
      | [] => s
      | first :: rest =>
          let disaster_tweets := filter status_is_disaster (first :: rest) in
          {| last_tweet_id := Some (status_id first);
             delivered :=
               match disaster_tweets with
               | [] => delivered s
               | _ :: _ => delivered s ++ [disaster_tweets]
               end |}
      end
  end.

(** The worker after the turns in which the search did as [responses]
    say. *)
Definition polling_worker (responses : list (Result (list Status))) : Worker :=
  fold_left poll responses {| last_tweet_id := None; delivered := [] |}.

End Polling.

(** [APIMonitor] *)
Module Monitor.

Local Open Scope string_scope.

Section Stats.

Context {num : Type} `{JsNumber num} `{JsProduct num}.

Record usage_stats : Type := {
  requests_today : nat;
  tweets_processed : Z;
  cost_today : num;
  errors : nat
}.

(** [__init__] *)
Definition init : usage_stats :=
  {| requests_today := 0; tweets_processed := 0; cost_today := js_lit 0; errors := 0 |}.

Definition track_request (s : usage_stats) (request : Z * num) : usage_stats :=
  let '(tweet_count, cost) := request in
  {| requests_today := (requests_today s + 1)%nat;
     tweets_processed := (tweets_processed s + tweet_count)%Z;
     cost_today := js_add (cost_today s) cost;
     errors := errors s |}.

(** [check_limits]: the messages [send_alert] is called with, in order. *)
Definition check_limits (s : usage_stats) : list string :=
  let daily_budget := js_lit 50 in
  ((if js_ltb (js_mul daily_budget (js_lit 0.9)) (cost_today s)
    then ["Approaching daily budget limit"] else [])
   ++ (if (10 <? errors s)%nat then ["High error rate detected"] else []))%list.

End Stats.

End Monitor.

(* ================================================================== *)
(** ** What the statements on the services refer to *)

(** A character of a query that is no underscore. *)
Definition not_underscore (c : ascii) : bool := negb (Ascii.eqb c "_").

(** A response that lists the tweets newest first: the ids are positive
    and strictly decreasing. *)
Definition newest_first (response : Fallback.Result (list Status)) : Prop :=
  match response with
  | Fallback.returned tweets =>
      StronglySorted (fun a b => (status_id b < status_id a)%Z) tweets
      /\ Forall (fun tweet => (0 < status_id tweet)%Z) tweets
  | Fallback.raised _ => True
  end.

(** The ids of the tweets the callback was given, in order. *)
Definition ids (batches : list (list Status)) : list Z :=
  map status_id (List.concat batches).

(** What the polling worker keeps between two turns, on such responses: no
    id was delivered twice, and none is above [last_tweet_id]. *)
Definition settled (s : Polling.Worker) : Prop :=
  NoDup (ids (Polling.delivered s))
  /\ match Polling.last_tweet_id s with
     | None => Polling.delivered s = []
     | Some last =>
         (0 < last)%Z /\ Forall (fun i => (i <= last)%Z) (ids (Polling.delivered s))
     end.

(* ================================================================== *)
(** ** Further inputs for the examples *)

(** An alert of a given name and priority at a place. *)
Definition alert_at (name : string) (score lat lon : Q) : Tweet Q :=
  {| id := Some name;
     text := name;
     is_disaster := true;
     confidence := 0.8;
     priority_score := score;
     coordinates := Some (coord lat, coord lon);
     geolocation_confidence := 0.9;
     priority_factors := None;
     created_at := None;
     timestamp := None;
     simulation := false |}.

(** Two alerts a few metres apart in San Francisco, and one in Los Angeles
    between them. *)
Definition pier : Tweet Q := alert_at "pier" 0.6 37.7750 (-122.4190).

Definition market : Tweet Q := alert_at "market" 0.95 37.7751 (-122.4194).

Definition harbor : Tweet Q := alert_at "harbor" 0.3 34.0522 (-118.2437).

Definition nearby_alerts : list (Tweet Q) := [pier; harbor; market].

Definition nearby_cluster : Cluster Q :=
  finish (groupOf (coord 37.7750, coord (-122.4190)) [pier; market]).

(** The equality of two alerts of which every field is the same. *)
Definition Tweet_eq_dec (a b : Tweet Q) : {a = b} + {a <> b}.
Proof. repeat decide equality. Defined.

Definition sameAlert (a b : Tweet Q) : bool :=
  if Tweet_eq_dec a b then true else false.

(** Two tweets with the same text up to the case of the letters, the first
    one not in English. *)
Definition alerta : Status :=
  {| status_id := 11;
     status_text := "FLOOD WARNING for the river valley tonight";
     status_lang := Some "es"%string;
     status_is_disaster := true |}.

Definition warning : Status :=
  {| status_id := 12;
     status_text := "Flood warning for the river valley tonight";
     status_lang := Some "en"%string;
     status_is_disaster := true |}.

(** A hash for the examples: the length and the first character. *)
Definition example_hash (s : string) : Z :=
  match s with
  | EmptyString => 0
  | String c _ => Z.of_nat (nat_of_ascii c) + 256 * Z.of_nat (String.length s)
  end.

(** A search that answers its [n]-th call with the number [n]. *)
Definition numbered (n : nat) (query : string) (max_results : nat)
  : Fallback.Result (list nat) :=
  Fallback.returned [n].

Definition empty_service : Optimized.Service (num := Q) nat :=
  {| Optimized.cache := []; Optimized.requests := 0 |}.

(** A tweet of the polling, by its id. *)
Definition polled (i : Z) (disaster : bool) : Status :=
  {| status_id := i;
     status_text := "Earthquake reported downtown";
     status_lang := Some "en"%string;
     status_is_disaster := disaster |}.

(** Three turns of the polling: three tweets, a failure, and then two new
    tweets before two of the first turn. *)
Definition polled_responses : list (Fallback.Result (list Status)) :=
  [ Fallback.returned [polled 3 true; polled 2 false; polled 1 true];
    Fallback.raised "timeout"%string;
    Fallback.returned [polled 5 true; polled 4 true; polled 3 true; polled 2 false] ].

(** The configuration of the documentation (urgency +0.3 for "emergency",
    "urgent", "help"; location +0.2 and +0.1; keyword +0.1 for "fire",
    "earthquake", "flood"), with a threshold of one half, and three alerts
    scored with it: a text with three urgency terms, one with a single
    term, one with none. *)
Definition documented_config : Scorer.Config :=
  {| Scorer.urgency_keywords := Scorer.documented_urgency_keywords;
     Scorer.disaster_keywords := ["fire"; "earthquake"; "flood"]%string;
     Scorer.urgency_bonus := 0.3;
     Scorer.coordinate_bonus := 0.2;
     Scorer.location_text_bonus := 0.1;
     Scorer.keyword_bonus := 0.1;
     Scorer.confidence_threshold := 0.5 |}.

Definition scored_examples : list (Tweet Q) :=
  [ Scorer.scoreAlert documented_config "URGENT: help, emergency at the dam" 0.4 None 0;
    Scorer.scoreAlert documented_config "Please help us" 0.4 None 0;
    Scorer.scoreAlert documented_config "Sunny day at the lake" 0.4 None 0 ].

(* ================================================================== *)
(** * Properties *)

Unset Implicit Arguments.

(** ** Strings *)

Section StrFacts.

Local Open Scope string_scope.

Lemma take_drop n s : Str.take n s ++ Str.drop n s = s.
Proof.
  revert s; induction n as [|n IH]; intros [|c s]; simpl; try reflexivity.
  now rewrite IH.
Qed.

Lemma all_app p a b : Str.all p (a ++ b) = Str.all p a && Str.all p b.
Proof.
  induction a as [|c a IH]; simpl; [reflexivity|].
  now rewrite IH, andb_assoc.
Qed.

Lemma all_take p n s : Str.all p s = true -> Str.all p (Str.take n s) = true.
Proof.
  revert s; induction n as [|n IH]; intros [|c s]; simpl; auto.
  intros H; apply andb_true_iff in H as [Hc Hs].
  now rewrite Hc, IH.
Qed.

Lemma all_drop p n s : Str.all p s = true -> Str.all p (Str.drop n s) = true.
Proof.
  revert s; induction n as [|n IH]; intros [|c s]; simpl; auto.
  intros H; apply andb_true_iff in H as [_ Hs]; auto.
Qed.

Lemma all_repeat p c n : p c = true -> Str.all p (Str.repeat c n) = true.
Proof. intros Hc; induction n; simpl; [reflexivity | now rewrite Hc]. Qed.

Lemma all_weaken (p q : ascii -> bool) s :
  (forall c, p c = true -> q c = true) -> Str.all p s = true -> Str.all q s = true.
Proof.
  intros Hpq; induction s as [|c s IH]; simpl; auto.
  intros H; apply andb_true_iff in H as [Hc Hs].
  now rewrite (Hpq _ Hc), IH.
Qed.

Lemma str_length_repeat c n : String.length (Str.repeat c n) = n.
Proof. induction n; simpl; congruence. Qed.

Lemma str_length_app a b : String.length (a ++ b) = (String.length a + String.length b)%nat.
Proof. induction a; simpl; congruence. Qed.

Lemma remove_app c a b : Str.remove c (a ++ b) = Str.remove c a ++ Str.remove c b.
Proof.
  induction a as [|d a IH]; simpl; [reflexivity|].
  destruct (Ascii.eqb c d); simpl; now rewrite IH.
Qed.

Lemma remove_absent c p s : p c = false -> Str.all p s = true -> Str.remove c s = s.
Proof.
  intros Hc; induction s as [|d s IH]; simpl; [reflexivity|].
  intros H; apply andb_true_iff in H as [Hd Hs].
  destruct (Ascii.eqb_spec c d) as [->|_]; [congruence|].
  now rewrite IH.
Qed.

(** A separator that occurs in neither left part splits a string in one
    way only. *)
Lemma split_unique p c a a' b b' :
  p c = false -> Str.all p a = true -> Str.all p a' = true ->
  a ++ String c b = a' ++ String c b' -> a = a' /\ b = b'.
Proof.
  intros Hc; revert a'; induction a as [|d a IH]; intros [|d' a']; simpl.
  - intros _ _ H; injection H as H; auto.
  - intros _ H' H; injection H as <- _.
    apply andb_true_iff in H' as [H' _]; congruence.
  - intros H' _ H; injection H as -> _.
    apply andb_true_iff in H' as [H' _]; congruence.
  - intros Ha Ha' H; injection H as <- H.
    apply andb_true_iff in Ha as [_ Ha]; apply andb_true_iff in Ha' as [_ Ha'].
    destruct (IH a' Ha Ha' H) as [-> ->]; auto.
Qed.


End StrFacts.

(** ** [toFixed]: the printed value determines the rounded one *)

Section FixedFacts.

Local Open Scope string_scope.

Lemma digit_is_fixed_char c : Fixed.is_digit c = true -> Fixed.is_fixed_char c = true.
Proof. unfold Fixed.is_fixed_char; intros ->; reflexivity. Qed.

Lemma uint_digits d : Str.all Fixed.is_digit (NilEmpty.string_of_uint d) = true.
Proof. induction d; simpl; auto. Qed.

Lemma digits_all n : Str.all Fixed.is_digit (Fixed.digits n) = true.
Proof. apply uint_digits. Qed.

Lemma to_uint_not_nil n : N.to_uint n <> Nil.
Proof.
  intros E. assert (H := DecimalN.Unsigned.to_of (N.to_uint n)).
  rewrite DecimalN.Unsigned.of_to, E in H. discriminate H.
Qed.

Lemma digits_not_empty n : Fixed.digits n <> "".
Proof.
  unfold Fixed.digits. generalize (to_uint_not_nil n).
  destruct (N.to_uint n); simpl; congruence.
Qed.

Lemma pad_all f m :
  Str.all Fixed.is_digit m = true -> Str.all Fixed.is_digit (Fixed.pad f m) = true.
Proof.
  intros Hm; unfold Fixed.pad. destruct (_ <=? _)%nat; auto.
  rewrite all_app, Hm, all_repeat; reflexivity.
Qed.

Lemma pad_length f m : (f < String.length (Fixed.pad f m) \/ m = Fixed.pad f m /\ f < String.length m)%nat.
Proof.
  unfold Fixed.pad. destruct (Nat.leb_spec (String.length m) f).
  - left. rewrite str_length_app, str_length_repeat. lia.
  - right. split; [reflexivity | lia].
Qed.

(** The point is put after at least one digit. *)
Lemma point_shape f m :
  Str.all Fixed.is_digit m = true -> m <> "" ->
  exists a b,
    Fixed.point f m = a ++ b /\ a <> "" /\ Str.all Fixed.is_digit a = true /\
    Str.all Fixed.is_fixed_char b = true /\
    Str.remove "." (Fixed.point f m) = Fixed.pad f m \/
    f = O /\ Fixed.point f m = m.
Proof.
  intros Hm Hne. destruct f as [|f]; [exists m, ""; right; auto|].
  remember (Fixed.pad (S f) m) as m' eqn:Em'.
  assert (Hm' : Str.all Fixed.is_digit m' = true) by (subst m'; now apply pad_all).
  assert (Hk : (S f < String.length m')%nat).
  { destruct (pad_length (S f) m) as [L | [E L]]; rewrite <- Em' in *; [lia|].
    rewrite <- E; lia. }
  exists (Str.take (String.length m' - S f) m'),
         ("." ++ Str.drop (String.length m' - S f) m').
  left. repeat split.
  - unfold Fixed.point. now rewrite <- Em'.
  - clear Em'. destruct m' as [|c m'']; simpl in Hk; [lia|].
    destruct (String.length m'' - f)%nat eqn:E; [lia|].
    replace (String.length (String c m'') - S f)%nat with (S n) by (simpl; lia).
    simpl; congruence.
  - now apply all_take.
  - simpl. apply (all_weaken _ _ _ digit_is_fixed_char). now apply all_drop.
  - unfold Fixed.point. rewrite <- Em'. cbv zeta.
    rewrite remove_app. simpl.
    rewrite !(remove_absent "." Fixed.is_digit);
      auto using all_take, all_drop.
    apply take_drop.
Qed.

Lemma point_chars f m :
  Str.all Fixed.is_digit m = true -> m <> "" ->
  Str.all Fixed.is_fixed_char (Fixed.point f m) = true.
Proof.
  intros Hm Hne.
  destruct (point_shape f m Hm Hne) as (a & b & [(E & _ & Ha & Hb & _) | (_ & E)]).
  - rewrite E, all_app, Hb, (all_weaken _ _ _ digit_is_fixed_char Ha); reflexivity.
  - rewrite E. now apply (all_weaken _ _ _ digit_is_fixed_char).
Qed.

(** No printed value holds a comma. *)
Lemma toFixed_chars f x : Str.all Fixed.is_fixed_char (Fixed.toFixed f x) = true.
Proof.
  unfold Fixed.toFixed, Fixed.print.
  rewrite all_app, point_chars by auto using digits_all, digits_not_empty.
  destruct (fst _); reflexivity.
Qed.

Lemma not_minus_first c s :
  Fixed.is_digit c = true ->
  match String c s with
  | String "-" rest => (true, rest)
  | _ => (false, String c s)
  end = (false, String c s).
Proof.
  destruct c as [[] [] [] [] [] [] [] []]; try reflexivity; discriminate.
Qed.

Lemma uint_of_zeros z s :
  NilEmpty.uint_of_string (Str.repeat "0" z ++ s)
  = option_map (Nat.iter z D0) (NilEmpty.uint_of_string s).
Proof.
  induction z as [|z IH]; simpl.
  - destruct (NilEmpty.uint_of_string s); reflexivity.
  - rewrite IH. destruct (NilEmpty.uint_of_string s); reflexivity.
Qed.

Lemma of_uint_zeros z d : N.of_uint (Nat.iter z D0 d) = N.of_uint d.
Proof. induction z as [|z IH]; simpl; [reflexivity | exact IH]. Qed.

Lemma read_pad f n :
  option_map N.of_uint (NilEmpty.uint_of_string (Fixed.pad f (Fixed.digits n))) = Some n.
Proof.
  unfold Fixed.pad, Fixed.digits.
  destruct (_ <=? _)%nat.
  - rewrite uint_of_zeros, NilEmpty.usu. simpl.
    now rewrite of_uint_zeros, DecimalN.Unsigned.of_to.
  - rewrite NilEmpty.usu. simpl. now rewrite DecimalN.Unsigned.of_to.
Qed.

Lemma read_digits n :
  option_map N.of_uint (NilEmpty.uint_of_string (Fixed.digits n)) = Some n.
Proof.
  unfold Fixed.digits. rewrite NilEmpty.usu. simpl.
  now rewrite DecimalN.Unsigned.of_to.
Qed.

Lemma parse_body (neg : bool) (body : string) (n : N) :
  option_map N.of_uint (NilEmpty.uint_of_string (Str.remove "." body)) = Some n ->
  option_map (fun d => (neg, N.of_uint d))
             (NilEmpty.uint_of_string (Str.remove "." body)) = Some (neg, n).
Proof.
  destruct (NilEmpty.uint_of_string _); simpl; [|discriminate].
  intros E; injection E as ->; reflexivity.
Qed.

Lemma read_point f n :
  option_map N.of_uint
    (NilEmpty.uint_of_string (Str.remove "." (Fixed.point f (Fixed.digits n)))) = Some n
  /\ exists c s, Fixed.point f (Fixed.digits n) = String c s /\ Fixed.is_digit c = true.
Proof.
  destruct (point_shape f _ (digits_all n) (digits_not_empty n))
    as (a & b & [(E & Ha & Hd & _ & R) | (-> & E)]).
  - split; [rewrite R; apply read_pad|].
    rewrite E. destruct a as [|c a]; [congruence|].
    exists c, (a ++ b); split; [reflexivity|].
    simpl in Hd. now apply andb_true_iff in Hd as [Hd _].
  - split.
    + rewrite E, (remove_absent "." Fixed.is_digit) by auto using digits_all.
      apply read_digits.
    + rewrite E. generalize (digits_all n) (digits_not_empty n).
      destruct (Fixed.digits n) as [|c s]; [congruence|].
      simpl; intros Hd _. exists c, s; split; [reflexivity|].
      now apply andb_true_iff in Hd as [Hd _].
Qed.

(** Reading a printed value gives back the sign and the rounded magnitude. *)
Lemma parse_print f r : Fixed.parse (Fixed.print f r) = Some r.
Proof.
  destruct r as [neg n]. unfold Fixed.print, Fixed.parse; simpl fst; simpl snd.
  destruct (read_point f n) as (R & c & s & E & Hc).
  destruct neg; simpl.
  - now apply parse_body.
  - rewrite E, (not_minus_first c s Hc), <- E. now apply parse_body.
Qed.

(** Two numbers print alike exactly when they have the same sign and the
    same rounded magnitude. *)
Lemma toFixed_eq_iff f x y :
  Fixed.toFixed f x = Fixed.toFixed f y <-> Fixed.rounded f x = Fixed.rounded f y.
Proof.
  unfold Fixed.toFixed; split;intros E.
  - assert (P := parse_print f (Fixed.rounded f x)).
    rewrite E, parse_print in P. congruence.
  - now rewrite E.
Qed.

Lemma keyOf_eq_iff (c c' : Q * Q) :
  keyOf c = keyOf c' <->
  Fixed.toFixed 3 (fst c) = Fixed.toFixed 3 (fst c')
  /\ Fixed.toFixed 3 (snd c) = Fixed.toFixed 3 (snd c').
Proof.
  unfold keyOf; split.
  - intros E.
    apply (split_unique Fixed.is_fixed_char) in E; auto using toFixed_chars.
  - intros [-> ->]; reflexivity.
Qed.

End FixedFacts.

(** ** [useHeatmapData]: what [locationGroups] holds *)

Section HeatmapFacts.

Context {num : Type} `{JsNumber num}.

Implicit Types (o : Groups num) (g : Group.t num) (key : string)
  (ts : list (Tweet num)) (tweet : Tweet num).

Lemma lookup_None key o : lookup key o = None <-> ~ In key (map fst o).
Proof.
  induction o as [|[k g] o IH]; simpl; [tauto|].
  destruct (String.eqb_spec key k) as [->|Hk].
  - split; [discriminate | tauto].
  - rewrite IH. split; [intros Hn [E|Hi]; [congruence | tauto] | tauto].
Qed.

Lemma lookup_In key o g : lookup key o = Some g -> In (key, g) o.
Proof.
  induction o as [|[k g'] o IH]; simpl; [discriminate|].
  destruct (String.eqb_spec key k) as [->|Hk]; [|auto].
  intros E; injection E as ->; auto.
Qed.

Lemma In_lookup key o g : NoDup (map fst o) -> In (key, g) o -> lookup key o = Some g.
Proof.
  induction o as [|[k g'] o IH]; simpl; [tauto|].
  intros Hnd [E|Hi]; inversion Hnd as [|? ? Hk Hnd']; subst.
  - injection E as -> ->. now rewrite String.eqb_refl.
  - destruct (String.eqb_spec key k) as [->|_]; [|auto].
    exfalso; apply Hk. now apply (in_map fst) in Hi.
Qed.

Lemma update_keys key f o : map fst (update key f o) = map fst o.
Proof.
  induction o as [|[k g] o IH]; simpl; [reflexivity|].
  destruct (String.eqb key k); simpl; congruence.
Qed.

Lemma update_absent key f o : lookup key o = None -> update key f o = o.
Proof.
  induction o as [|[k g] o IH]; simpl; [reflexivity|].
  destruct (String.eqb key k); [discriminate|].
  intros E; now rewrite IH.
Qed.

Lemma update_last key f o g :
  lookup key o = None -> update key f (o ++ [(key, g)]) = o ++ [(key, f g)].
Proof.
  induction o as [|[k g'] o IH]; simpl.
  - now rewrite String.eqb_refl.
  - destruct (String.eqb key k); [discriminate|].
    intros E; now rewrite IH.
Qed.

(** An entry of the updated object is an old entry under another key, or
    the updated entry of the key. *)
Lemma In_update key f o k g :
  NoDup (map fst o) -> In (k, g) (update key f o) ->
  (k <> key /\ In (k, g) o) \/ (k = key /\ exists g0, In (key, g0) o /\ g = f g0).
Proof.
  induction o as [|[k' g'] o IH]; simpl; [tauto|].
  intros Hnd; inversion Hnd as [|? ? Hk Hnd']; subst.
  destruct (String.eqb_spec key k') as [->|Hne]; simpl.
  - intros [E|Hi].
    + injection E as <- <-. right; eauto.
    + left. split; [|auto].
      intros ->. apply Hk. now apply (in_map fst) in Hi.
  - intros [E|Hi].
    + injection E as <- <-. left; auto.
    + destruct (IH Hnd' Hi) as [[Hn Hi']|[-> (g0 & Hi' & ->)]]; [left; auto|].
      right; eauto.
Qed.

Lemma hasKey_true key tweet :
  hasKey key tweet = true <-> exists c, coordinates tweet = Some c /\ keyOf c = key.
Proof.
  unfold hasKey. destruct (coordinates tweet) as [c|].
  - rewrite String.eqb_eq. split; [eauto | intros (c' & E & <-); congruence].
  - split; [discriminate | intros (c' & E & _); discriminate].
Qed.

Lemma members_In key ts tweet :
  In tweet (members key ts) <->
  In tweet ts /\ exists c, coordinates tweet = Some c /\ keyOf c = key.
Proof. unfold members. now rewrite filter_In, hasKey_true. Qed.

Lemma members_snoc key ts tweet :
  members key (ts ++ [tweet])
  = members key ts ++ (if hasKey key tweet then [tweet] else []).
Proof. unfold members. now rewrite filter_app. Qed.

Lemma members_snoc_other key ts tweet :
  (forall c, coordinates tweet = Some c -> keyOf c <> key) ->
  members key (ts ++ [tweet]) = members key ts.
Proof.
  intros Hn. rewrite members_snoc.
  replace (hasKey key tweet) with false; [apply app_nil_r|].
  symmetry. unfold hasKey. destruct (coordinates tweet) as [c|]; [|reflexivity].
  apply String.eqb_neq. now apply Hn.
Qed.

Lemma members_snoc_same ts tweet c :
  coordinates tweet = Some c ->
  members (keyOf c) (ts ++ [tweet]) = members (keyOf c) ts ++ [tweet].
Proof.
  intros Hc. rewrite members_snoc. unfold hasKey.
  now rewrite Hc, String.eqb_refl.
Qed.

Lemma record_groupOf tweet c ms :
  record tweet (groupOf c ms) = groupOf c (ms ++ [tweet]).
Proof.
  unfold record, groupOf, sum, maxFromZero, scores; simpl.
  rewrite map_app, !fold_left_app, last_length, Nat.add_1_r. reflexivity.
Qed.

Lemma record_newGroup tweet c : record tweet (newGroup c) = groupOf c [tweet].
Proof. reflexivity. Qed.

(** A key without an entry is carried by no tweet seen so far. *)
Lemma members_absent ts o key :
  grouped ts o -> ~ In key (map fst o) -> members key ts = [].
Proof.
  intros (_ & _ & Hall) Hk.
  destruct (members key ts) as [|tweet ms] eqn:E; [reflexivity|].
  assert (Hi : In tweet (members key ts)) by (rewrite E; now left).
  apply members_In in Hi as (Hi & c & Hc & <-).
  exfalso; eauto.
Qed.

Lemma grouped_nil : grouped [] [].
Proof.
  repeat split; simpl; [constructor | tauto | tauto].
Qed.

(** One turn of the loop keeps [locationGroups] grouped. *)
Lemma grouped_addTweet ts o tweet :
  grouped ts o -> grouped (ts ++ [tweet]) (addTweet o tweet).
Proof.
  intros Hg. assert (Hg' := Hg). destruct Hg' as (Hnd & Hent & Hall).
  unfold addTweet. destruct (coordinates tweet) as [c|] eqn:Hc.
  2:{ (* no coordinates: nothing changes *)
    repeat split; [assumption | |].
    - intros key g Hi. rewrite members_snoc_other by (rewrite Hc; discriminate).
      auto.
    - intros t c Hi Ht. apply in_app_or in Hi as [Hi|[<-|[]]]; [eauto | congruence]. }
  cbv zeta. destruct (lookup (keyOf c) o) as [g0|] eqn:Hl.
  - (* the key has an entry: it takes the tweet *)
    repeat split.
    + now rewrite update_keys.
    + intros key g Hi.
      apply In_update in Hi as [[Hn Hi]|[-> (g1 & Hi & ->)]]; [| |assumption].
      * destruct (Hent _ _ Hi) as (first & c0 & rest & Em & Hf & ->).
        rewrite members_snoc_other by (rewrite Hc; congruence). eauto 6.
      * destruct (Hent _ _ Hi) as (first & c0 & rest & Em & Hf & ->).
        rewrite record_groupOf, members_snoc_same, Em by assumption.
        exists first, c0, (rest ++ [tweet]). auto.
    + intros t c' Hi Ht. rewrite update_keys.
      apply in_app_or in Hi as [Hi|[<-|[]]]; [eauto|].
      replace c' with c by congruence.
      apply lookup_In in Hl. now apply (in_map fst) in Hl.
  - (* a new key: an entry is added at the end, with the tweet *)
    assert (Hk : ~ In (keyOf c) (map fst o)) by now apply lookup_None.
    rewrite update_last by assumption.
    repeat split.
    + rewrite map_app. apply NoDup_app; [assumption | repeat constructor; simpl; tauto |].
      intros k Hi [<-|[]]. tauto.
    + intros key g Hi.
      apply in_app_or in Hi as [Hi|[E|[]]].
      * destruct (Hent _ _ Hi) as (first & c0 & rest & Em & Hf & ->).
        rewrite members_snoc_other; [eauto 6|].
        rewrite Hc. intros c' E <-. injection E as <-.
        apply Hk. now apply (in_map fst) in Hi.
      * injection E as <- <-.
        rewrite members_snoc_same, (members_absent ts o (keyOf c) Hg Hk) by assumption.
        simpl. exists tweet, c, []. auto using record_newGroup.
    + intros t c' Hi Ht. rewrite map_app, in_app_iff.
      apply in_app_or in Hi as [Hi|[<-|[]]]; [eauto|].
      replace c' with c by congruence. right; simpl; auto.
Qed.

Lemma grouped_fold ts : forall seen o,
  grouped seen o -> grouped (seen ++ ts) (fold_left addTweet ts o).
Proof.
  induction ts as [|tweet ts IH]; intros seen o Hg; simpl.
  - now rewrite app_nil_r.
  - replace (seen ++ tweet :: ts) with ((seen ++ [tweet]) ++ ts)
      by (rewrite <- app_assoc; reflexivity).
    apply IH. now apply grouped_addTweet.
Qed.

Lemma grouped_all ts : grouped ts (fold_left addTweet ts []).
Proof. exact (grouped_fold ts [] [] grouped_nil). Qed.

End HeatmapFacts.

(** ** [useHeatmapData]: the clusters *)

Section ClusterFacts.

Context {num : Type} `{JsNumber num}.

Implicit Types (ts : list (Tweet num)) (tweet : Tweet num) (cl : Cluster num).

Lemma useHeatmapData_fold ts :
  useHeatmapData ts = map finish (map snd (fold_left addTweet ts [])).
Proof. destruct ts; reflexivity. Qed.

(** A cluster is the finished group of the tweets that carry one key. *)
Lemma cluster_members ts cl :
  In cl (useHeatmapData ts) ->
  exists key first c rest,
    members key ts = first :: rest /\ coordinates first = Some c
    /\ cl = finish (groupOf c (members key ts)).
Proof.
  rewrite useHeatmapData_fold, map_map, in_map_iff.
  intros ([key g] & <- & Hi).
  destruct (grouped_all ts) as (_ & Hent & _).
  destruct (Hent _ _ Hi) as (first & c & rest & Em & Hf & ->).
  exists key, first, c, rest. auto.
Qed.

(** A tweet with coordinates is in the cluster of its key. *)
Lemma cluster_of_tweet ts tweet c :
  In tweet ts -> coordinates tweet = Some c ->
  exists cl, In cl (useHeatmapData ts) /\ Group.tweets cl = members (keyOf c) ts.
Proof.
  intros Hi Hc. destruct (grouped_all ts) as (_ & Hent & Hall).
  specialize (Hall _ _ Hi Hc). apply in_map_iff in Hall as ([key g] & E & Hg).
  simpl in E; subst key.
  destruct (Hent _ _ Hg) as (first & c0 & rest & Em & Hf & ->).
  exists (finish (groupOf c0 (members (keyOf c) ts))). split; [|reflexivity].
  rewrite useHeatmapData_fold, map_map, in_map_iff.
  exists (keyOf c, groupOf c0 (members (keyOf c) ts)). auto.
Qed.

(** The members of a cluster carry one key, and the cluster is determined
    by any of them. *)
Lemma cluster_of_member ts cl tweet :
  In cl (useHeatmapData ts) -> In tweet (Group.tweets cl) ->
  exists c first c0,
    In tweet ts /\ coordinates tweet = Some c
    /\ hd_error (members (keyOf c) ts) = Some first /\ coordinates first = Some c0
    /\ cl = finish (groupOf c0 (members (keyOf c) ts)).
Proof.
  intros Hcl Hm.
  destruct (cluster_members ts cl Hcl) as (key & first & c0 & rest & Em & Hf & ->).
  simpl in Hm. apply members_In in Hm as (Hi & c & Hc & <-).
  exists c, first, c0. rewrite Em. auto.
Qed.

Lemma cluster_unique ts cl cl' tweet :
  In cl (useHeatmapData ts) -> In cl' (useHeatmapData ts) ->
  In tweet (Group.tweets cl) -> In tweet (Group.tweets cl') -> cl = cl'.
Proof.
  intros Hcl Hcl' Hm Hm'.
  destruct (cluster_of_member ts cl tweet Hcl Hm) as (c & f & c0 & _ & Hc & Hf & Hc0 & ->).
  destruct (cluster_of_member ts cl' tweet Hcl' Hm') as (c' & f' & c0' & _ & Hc' & Hf' & Hc0' & ->).
  congruence.
Qed.

(** The statistics of a cluster, in the arithmetic of the numbers. *)
Lemma cluster_statistics ts cl :
  In cl (useHeatmapData ts) ->
  Group.tweets cl <> []
  /\ Group.count cl = List.length (Group.tweets cl)
  /\ Group.totalPriority cl = sum (scores (Group.tweets cl))
  /\ Group.maxPriority cl = maxFromZero (scores (Group.tweets cl))
  /\ avgPriority cl = js_div (sum (scores (Group.tweets cl)))
                             (js_of_nat (List.length (Group.tweets cl)))
  /\ intensity cl = Group.maxPriority cl
  /\ incl (Group.tweets cl) ts.
Proof.
  intros Hcl.
  destruct (cluster_members ts cl Hcl) as (key & first & c0 & rest & Em & Hf & ->).
  simpl. rewrite Em. repeat split; try discriminate.
  rewrite <- Em. intros t Ht. now apply members_In in Ht.
Qed.

(** Tweets without coordinates leave [locationGroups] as it is. *)
Lemma fold_addTweet_no_coordinates ts : forall tweet after o,
  coordinates tweet = None ->
  fold_left addTweet (ts ++ tweet :: after) o = fold_left addTweet (ts ++ after) o.
Proof.
  intros tweet after o Hc. rewrite !fold_left_app. simpl.
  unfold addTweet at 2. now rewrite Hc.
Qed.

(** The loop as a transition system computes the fold. *)
Lemma forEach_fold ts : forall o o', forEach ts o o' <-> o' = fold_left addTweet ts o.
Proof.
  induction ts as [|tweet ts IH]; intros o o'; simpl.
  - split; [now inversion 1 | intros ->; constructor].
  - split.
    + inversion 1 as [|? ? ? ? Hc Hr|? ? c ? ? Hc Hl Hr|? ? c g ? ? Hc Hl Hr]; subst;
        apply IH in Hr; subst o'; unfold addTweet; now rewrite Hc, ?Hl.
    + intros ->. unfold addTweet at 2.
      destruct (coordinates tweet) as [c|] eqn:Hc.
      * cbv zeta. destruct (lookup (keyOf c) o) as [g|] eqn:Hl.
        -- eapply forEach_known_key; eauto. now apply IH.
        -- eapply forEach_new_key; eauto. now apply IH.
      * apply forEach_no_coordinates; [assumption | now apply IH].
Qed.

Lemma runs_useHeatmapData ts result : runs ts result <-> result = useHeatmapData ts.
Proof.
  split.
  - inversion 1 as [|tweet rest o Hf]; subst; [reflexivity|].
    apply forEach_fold in Hf. now subst o.
  - intros ->. destruct ts as [|tweet rest]; [constructor|].
    unfold useHeatmapData. constructor. now apply forEach_fold.
Qed.

End ClusterFacts.

(** ** The alert feed *)

Section FeedFacts.

Context {A B : Type}.

Lemma nth_error_mapi_from (f : A -> nat -> B) (l : list A) : forall start n,
  nth_error (mapi_from f start l) n
  = option_map (fun x => f x (start + n)%nat) (nth_error l n).
Proof.
  induction l as [|x l IH]; intros start [|n]; simpl; try reflexivity.
  - now rewrite Nat.add_0_r.
  - rewrite IH. now rewrite Nat.add_succ_r.
Qed.

Lemma length_mapi_from (f : A -> nat -> B) (l : list A) : forall start,
  List.length (mapi_from f start l) = List.length l.
Proof. induction l as [|x l IH]; intros start; simpl; [reflexivity | now rewrite IH]. Qed.

End FeedFacts.

(* ================================================================== *)
(** * The clustering of the heatmap *)

Section Clustering.

Context {num : Type} `{JsNumber num}.

Local Open Scope string_scope.

Lemma example_keys :
  keyOf (coord 37.7750, coord (-122.4190)) = "37.775,-122.419"
  /\ keyOf (coord 37.7751, coord (-122.4194)) = "37.775,-122.419".
Proof. split; vm_compute; reflexivity. Qed.

Lemma example_cluster (a b : Tweet num) :
  coordinates a = Some (coord 37.7750, coord (-122.4190)) ->
  coordinates b = Some (coord 37.7751, coord (-122.4194)) ->
  exists cl,
    useHeatmapData [a; b] = [cl] /\ Group.count cl = 2%nat /\ Group.tweets cl = [a; b].
Proof.
  intros Ha Hb. destruct example_keys as [Ka Kb].
  eexists. unfold useHeatmapData, fold_left, addTweet.
  rewrite Ha, Hb. cbv zeta. rewrite Ka, Kb. simpl.
  repeat split.
Qed.


(** C7.  Two runs of the hook on the same list of alerts return the same
    clusters: the same groupings, counts, maximum and average priorities.
    A run exists, and it returns what [useHeatmapData] computes. *)
Theorem clustering_deterministic (tweets : list (Tweet num))
  (first second : list (Cluster num)) :
  runs tweets first -> runs tweets second ->
  first = second
  /\ map (fun cl : Cluster num => (Group.tweets cl, Group.count cl, Group.maxPriority cl, avgPriority cl)) first
     = map (fun cl : Cluster num => (Group.tweets cl, Group.count cl, Group.maxPriority cl, avgPriority cl)) second
  /\ runs tweets (useHeatmapData tweets).
Proof.
  intros R1 R2. apply runs_useHeatmapData in R1, R2. subst.
  repeat split. now apply runs_useHeatmapData.
Qed.

(** C6.  An alert without coordinates is a member of no cluster, and the
    clusters are those of the list without it, so it adds to no count and to
    no statistic; the feed rendered from the same list still has its row, at
    its place, with its own text, scores and flag. *)
Theorem no_coordinates_no_cluster (st : AppState num)
  (before after : list (Tweet num)) (tweet : Tweet num) :
  tweets st = (before ++ tweet :: after)%list ->
  coordinates tweet = None ->
  (forall cl, In cl (snd (view st)) -> ~ In tweet (Group.tweets cl))
  /\ snd (view st) = useHeatmapData (before ++ after)%list
  /\ List.length (fst (view st)) = List.length (tweets st)
  /\ nth_error (fst (view st)) (List.length before)
     = Some (renderItem (selectedTweet st) tweet (List.length before))
  /\ item_text (renderItem (selectedTweet st) tweet (List.length before)) = text tweet
  /\ item_priority (renderItem (selectedTweet st) tweet (List.length before))
     = or_zero (priority_score tweet)
  /\ item_confidence (renderItem (selectedTweet st) tweet (List.length before))
     = or_zero (confidence tweet)
  /\ item_simulation (renderItem (selectedTweet st) tweet (List.length before))
     = simulation tweet.
Proof.
  intros Ht Hc. unfold view, feed; simpl. rewrite Ht. repeat split.
  - intros cl Hcl Hm.
    destruct (cluster_of_member _ cl tweet Hcl Hm) as (c & t0 & c0 & Hi & Hc' & Hrest).
    congruence.
  - rewrite !useHeatmapData_fold. now rewrite fold_addTweet_no_coordinates.
  - apply length_mapi_from.
  - unfold mapi. rewrite nth_error_mapi_from, nth_error_app2, Nat.sub_diag by lia.
    reflexivity.
Qed.

End Clustering.

Lemma clustering_deterministic_witness :
  useHeatmapData mock_alerts = useHeatmapData mock_alerts
  /\ runs mock_alerts (useHeatmapData mock_alerts).
Proof.
  assert (R : runs mock_alerts (useHeatmapData mock_alerts))
    by (apply runs_useHeatmapData; reflexivity).
  destruct (clustering_deterministic mock_alerts _ _ R R) as (E & _ & R').
  exact (conj E R').
Defined.

Lemma no_coordinates_no_cluster_witness :
  snd (view mixed_state) = useHeatmapData mock_alerts
  /\ List.length (fst (view mixed_state)) = 6%nat
  /\ nth_error (fst (view mixed_state)) 0
     = Some (renderItem None (scored_alert "unplaced" 0.5) 0).
Proof.
  destruct (no_coordinates_no_cluster mixed_state [] mock_alerts
              (scored_alert "unplaced" 0.5) eq_refl eq_refl)
    as (_ & Hc & Hl & Hn & _).
  exact (conj Hc (conj Hl Hn)).
Defined.

(* ================================================================== *)
(** * The statistics of a cluster *)

Section Binary64Example.

Import PrimFloat.


End Binary64Example.

Section ExactStatistics.

Local Open Scope Q_scope.

(** [Math.max(acc, x1, ..., xn)] is an upper bound of its arguments and is
    one of them. *)
Lemma maximum_from (xs : list Q) : forall acc,
  let m := fold_left js_max xs acc in
  acc <= m /\ (forall x, In x xs -> x <= m) /\ (m = acc \/ In m xs).
Proof.
  induction xs as [|x xs IH]; intros acc; simpl.
  - repeat split; [apply Qle_refl | tauto | auto].
  - destruct (IH (if Qle_bool acc x then x else acc)) as (Ha & Hx & Hm).
    destruct (Qle_bool acc x) eqn:E.
    + apply Qle_bool_iff in E. repeat split.
      * now apply Qle_trans with x.
      * intros y [<-|Hy]; auto.
      * destruct Hm as [Em|Hm]; [right; left; now symmetry | right; now right].
    + assert (x <= acc).
      { apply Qnot_lt_le. intros L. apply Qlt_le_weak, Qle_bool_iff in L. congruence. }
      repeat split.
      * assumption.
      * intros y [<-|Hy]; [now apply Qle_trans with acc | auto].
      * destruct Hm as [Em|Hm]; [now left | right; now right].
Qed.

Lemma sum_from (lo hi : Q) (xs : list Q) : forall acc,
  Forall (fun x => lo <= x <= hi) xs ->
  acc + inject_Z (Z.of_nat (List.length xs)) * lo <= fold_left js_add xs acc
  /\ fold_left js_add xs acc <= acc + inject_Z (Z.of_nat (List.length xs)) * hi.
Proof.
  induction xs as [|x xs IH]; intros acc Hxs.
  - change (fold_left js_add [] acc) with acc.
    change (inject_Z (Z.of_nat (List.length (@nil Q)))) with 0. split; lra.
  - inversion Hxs as [|? ? Hx Hxs']; subst.
    destruct (IH (acc + x) Hxs') as [Hlo Hhi].
    change (fold_left js_add (x :: xs) acc) with (fold_left js_add xs (acc + x)).
    change (List.length (x :: xs)) with (S (List.length xs)).
    rewrite Nat2Z.inj_succ. unfold Z.succ. rewrite inject_Z_plus.
    change (inject_Z 1) with 1. split; lra.
Qed.

Lemma positive_count (n : nat) : (1 <= n)%nat -> 0 < inject_Z (Z.of_nat n).
Proof. intros Hn. unfold Qlt; simpl. lia. Qed.

(** In exact arithmetic the maximum from 0 of scores that are not negative
    is the greatest of them. *)
Lemma maximum_greatest (xs : list Q) :
  xs <> [] -> Forall (fun x => 0 <= x) xs ->
  (forall x, In x xs -> x <= maxFromZero xs) /\ exists x, In x xs /\ x == maxFromZero xs.
Proof.
  intros Hne Hpos. unfold maxFromZero.
  destruct (maximum_from xs (js_lit 0)) as (H0 & Hx & Hm). cbv zeta in *.
  split; [assumption|].
  destruct Hm as [E|Hm]; [|exists (fold_left js_max xs (js_lit 0)); split; [assumption | reflexivity]].
  destruct xs as [|x xs]; [congruence|].
  exists x. split; [now left|].
  apply Qle_antisym; [apply Hx; now left|].
  rewrite E. inversion Hpos; subst. assumption.
Qed.

(** C5.  For every cluster, in either arithmetic: the members are the
    alerts of the list that carry the key of the cluster, [count] is their
    number, [maxPriority] is [Math.max] over 0 and their priority scores, and
    [avgPriority] is the sum of their priority scores divided by [count].
    In exact arithmetic, for priority scores that are not negative (they lie
    in [0, 1] in the data model), [maxPriority] is the maximum of the
    members' scores, an upper bound that one of them attains, and
    [avgPriority] is their arithmetic mean. *)
Theorem cluster_count_max_mean :
  (forall (num : Type) (arithmetic : JsNumber num)
          (tweets : list (Tweet num)) (cl : Cluster num),
      In cl (useHeatmapData tweets) ->
      (exists key, Group.tweets cl = members key tweets)
      /\ Group.count cl = List.length (Group.tweets cl)
      /\ Group.maxPriority cl = maxFromZero (scores (Group.tweets cl))
      /\ avgPriority cl
         = js_div (sum (scores (Group.tweets cl))) (js_of_nat (Group.count cl)))
  /\ (forall (tweets : list (Tweet Q)) (cl : Cluster Q),
         Forall (fun tweet => 0 <= priority_score tweet) tweets ->
         In cl (useHeatmapData tweets) ->
         (forall tweet, In tweet (Group.tweets cl) ->
                        priority_score tweet <= Group.maxPriority cl)
         /\ (exists tweet, In tweet (Group.tweets cl)
                           /\ priority_score tweet == Group.maxPriority cl)
         /\ avgPriority cl
            == sum (scores (Group.tweets cl)) / inject_Z (Z.of_nat (Group.count cl))).
Proof.
  split.
  - intros num arithmetic tweets cl Hcl.
    destruct (cluster_statistics tweets cl Hcl) as (_ & Hn & _ & Hm & Ha & _).
    split; [|rewrite Hn at 2; auto].
    destruct (cluster_members tweets cl Hcl) as (key & t0 & c0 & rest & _ & _ & ->).
    exists key. reflexivity.
  - intros tweets cl Hpos Hcl.
    destruct (cluster_statistics tweets cl Hcl) as (Hne & Hn & Ht & Hm & Ha & _ & Hin).
    assert (Hs : Forall (fun x => 0 <= x) (scores (Group.tweets cl))).
    { apply Forall_forall. intros x Hx. apply in_map_iff in Hx as (t & <- & Hx).
      rewrite Forall_forall in Hpos. auto. }
    assert (Hne' : scores (Group.tweets cl) <> []).
    { unfold scores. destruct (Group.tweets cl); [congruence | discriminate]. }
    destruct (maximum_greatest _ Hne' Hs) as (Hub & x & Hx & Ex).
    split; [|split].
    + intros t Hi. rewrite Hm. apply Hub. now apply (in_map (@priority_score Q)).
    + apply in_map_iff in Hx as (t & <- & Hx). exists t. rewrite Hm. auto.
    + rewrite Ha, Hn. reflexivity.
Qed.

Lemma cluster_count_max_mean_witness :
  Forall (fun tweet => 0 <= priority_score tweet) mock_alerts
  /\ In first_mock_cluster (useHeatmapData mock_alerts)
  /\ (exists tweet, In tweet (Group.tweets first_mock_cluster)
                    /\ priority_score tweet == Group.maxPriority first_mock_cluster)
  /\ avgPriority first_mock_cluster
     == sum (scores (Group.tweets first_mock_cluster))
        / inject_Z (Z.of_nat (Group.count first_mock_cluster)).
Proof.
  assert (Hpos : Forall (fun tweet => 0 <= priority_score tweet) mock_alerts).
  { repeat constructor; unfold Qle; simpl; lia. }
  assert (Hcl : In first_mock_cluster (useHeatmapData mock_alerts)).
  { vm_compute. left. reflexivity. }
  destruct (proj2 cluster_count_max_mean mock_alerts first_mock_cluster Hpos Hcl)
    as (_ & Hm & Ha).
  exact (conj Hpos (conj Hcl (conj Hm Ha))).
Defined.

(** In exact arithmetic the bounds of a cluster hold. *)
Lemma cluster_bounds_exact : @heatmap_bounds Q Exact.
Proof.
  intros tweets Hunit cl Hcl.
  destruct (cluster_statistics tweets cl Hcl) as (Hne & Hn & Ht & Hm & Ha & _ & Hin).
  assert (Hs : Forall (fun x => 0 <= x <= 1) (scores (Group.tweets cl))).
  { apply Forall_forall. intros x Hx. apply in_map_iff in Hx as (t & <- & Hx).
    rewrite Forall_forall in Hunit. destruct (Hunit t (Hin t Hx)) as [L U].
    split; now apply Qle_bool_iff. }
  assert (Hlen : (1 <= List.length (Group.tweets cl))%nat).
  { destruct (Group.tweets cl); [congruence | simpl; lia]. }
  assert (Hn0 := positive_count _ Hlen).
  destruct (maximum_from (scores (Group.tweets cl)) (js_lit 0)) as (H0 & Hub & Hmax).
  cbv zeta in *. fold (maxFromZero (scores (Group.tweets cl))) in *.
  assert (Hm1 : maxFromZero (scores (Group.tweets cl)) <= 1).
  { destruct Hmax as [->|Hi]; [now compute|].
    rewrite Forall_forall in Hs. now apply Hs. }
  assert (Hs' : Forall (fun x => 0 <= x <= maxFromZero (scores (Group.tweets cl)))
                       (scores (Group.tweets cl))).
  { rewrite Forall_forall in *. intros x Hx. split; [now apply Hs | now apply Hub]. }
  destruct (sum_from 0 _ _ (js_lit 0) Hs') as [Hlo Hhi].
  fold (sum (scores (Group.tweets cl))) in *. unfold scores in Hlo, Hhi.
  rewrite length_map in Hlo, Hhi. fold (scores (Group.tweets cl)) in *.
  change (js_lit 0) with 0 in *.
  unfold cluster_bounds. rewrite Hn, Ha, Hm.
  repeat split; try assumption; apply Qle_bool_iff; unfold js_div, js_of_nat, js_lit;
    simpl.
  - apply Qle_shift_div_l; [assumption | lra].
  - apply Qle_shift_div_r; [assumption | lra].
  - assumption.
Qed.

(** A binary64 number that compares with 0 is not NaN. *)
Lemma binary64_not_nan (x : PrimFloat.float) :
  PrimFloat.leb PrimFloat.zero x = true -> PrimFloat.is_nan x = false.
Proof.
  unfold PrimFloat.is_nan.
  rewrite FloatAxioms.eqb_spec, FloatAxioms.leb_spec.
  change (FloatOps.Prim2SF PrimFloat.zero) with (SpecFloat.S754_zero false).
  destruct (FloatOps.Prim2SF x) as [s|s| |s m e]; try destruct s;
    try discriminate; intros _; try reflexivity.
  unfold SpecFloat.SFeqb, SpecFloat.SFcompare.
  now rewrite Z.compare_refl, Pos.compare_cont_refl.
Qed.

(** [Math.max] of two binary64 numbers of [0, 1] is one of them. *)
Lemma binary64_max_in_unit (a b : PrimFloat.float) :
  in_unit_interval a -> in_unit_interval b -> in_unit_interval (js_max a b).
Proof.
  intros Ha Hb. change (js_max a b) with (Binary64.max a b). unfold Binary64.max.
  rewrite (binary64_not_nan a), (binary64_not_nan b) by (apply Ha || apply Hb).
  cbn [orb]. destruct (PrimFloat.ltb a b), (PrimFloat.ltb b a), (PrimFloat.get_sign a);
    assumption.
Qed.

Lemma binary64_maximum_in_unit (xs : list PrimFloat.float) : forall acc,
  in_unit_interval acc -> Forall in_unit_interval xs ->
  in_unit_interval (fold_left js_max xs acc).
Proof.
  induction xs as [|x xs IH]; intros acc Ha Hxs; [exact Ha|].
  inversion Hxs; subst. cbn [fold_left]. apply IH; [|assumption].
  now apply binary64_max_in_unit.
Qed.


End ExactStatistics.

(* ================================================================== *)
(** * The alert list of the dashboard *)

Section SortFacts.

Local Open Scope Q_scope.

Variable A : Type.
Variable comparefn : A -> A -> Q.
Variable weight : A -> Q.

(** The comparator is a difference of weights, as [byPriority] is. *)
Hypothesis comparefn_weight : forall y x, comparefn y x == weight x - weight y.

Lemma before_weight y x : before comparefn y x = true <-> weight x < weight y.
Proof.
  unfold before. change (js_ltb (comparefn y x) (js_lit 0))
    with (negb (Qle_bool 0 (comparefn y x))).
  rewrite negb_true_iff, <- not_true_iff_false, Qle_bool_iff, comparefn_weight.
  split; intros Hw.
  - apply Qnot_le_lt in Hw. lra.
  - apply Qlt_not_le. lra.
Qed.

Lemma insert_cons x y l :
  insert comparefn x (y :: l)
  = if before comparefn y x then y :: insert comparefn x l else x :: y :: l.
Proof. reflexivity. Qed.

Lemma insert_permutation x l : Permutation (insert comparefn x l) (x :: l).
Proof.
  induction l as [|y l IH]; [reflexivity|]. rewrite insert_cons.
  destruct (before comparefn y x); [|reflexivity].
  rewrite IH. apply perm_swap.
Qed.

Lemma sort_permutation l : Permutation (sort comparefn l) l.
Proof.
  induction l as [|x l IH]; simpl; [reflexivity|].
  rewrite insert_permutation. now constructor.
Qed.

Lemma insert_sorted x l :
  StronglySorted (fun a b => weight b <= weight a) l ->
  StronglySorted (fun a b => weight b <= weight a) (insert comparefn x l).
Proof.
  induction 1 as [|y l Hs IH Hy]; [repeat constructor|]. rewrite insert_cons.
  destruct (before comparefn y x) eqn:E.
  - apply before_weight in E. constructor; [assumption|].
    apply Forall_forall. intros z Hz.
    apply (Permutation_in _ (insert_permutation x l)) in Hz as [<-|Hz]; [lra|].
    rewrite Forall_forall in Hy. auto.
  - assert (Hxy : weight y <= weight x).
    { apply Qnot_lt_le. intros L. apply before_weight in L. congruence. }
    constructor; [now constructor|].
    constructor; [assumption|].
    apply Forall_forall. intros z Hz. rewrite Forall_forall in Hy.
    apply Qle_trans with (weight y); auto.
Qed.

Lemma sort_sorted l :
  StronglySorted (fun a b => weight b <= weight a) (sort comparefn l).
Proof.
  induction l as [|x l IH]; simpl; [constructor | now apply insert_sorted].
Qed.

(** An element passes only elements of another weight, so the elements of
    one weight stay in their order. *)
Lemma insert_filter (p : A -> bool) x l :
  (forall a b, p a = true -> p b = true -> weight a == weight b) ->
  filter p (insert comparefn x l) = filter p (x :: l).
Proof.
  intros Hp. induction l as [|y l IH]; [reflexivity|].
  rewrite insert_cons. destruct (before comparefn y x) eqn:E; [|reflexivity].
  apply before_weight in E.
  cbn [filter]. rewrite IH. cbn [filter].
  destruct (p x) eqn:Px, (p y) eqn:Py; try reflexivity.
  specialize (Hp x y Px Py). lra.
Qed.

Lemma sort_filter (p : A -> bool) l :
  (forall a b, p a = true -> p b = true -> weight a == weight b) ->
  filter p (sort comparefn l) = filter p l.
Proof.
  intros Hp. induction l as [|x l IH]; [reflexivity|].
  simpl sort. rewrite insert_filter by assumption.
  simpl. now rewrite IH.
Qed.

End SortFacts.

Section LoadTweets.

Context {num : Type} `{JsNumber num}.

(** The alerts [loadTweets] leaves in the state. *)
Lemma loadTweets_tweets (w : World num) (st : AppState num) :
  tweets (loadTweets w st)
  = if apiOnline w
    then if (0 <? List.length (fetched w))%nat
         then sortedTweets w (fetched w)
         else getMockTweets w
    else getMockTweets w.
Proof.
  unfold loadTweets, checkApiStatus, fetchLiveTweets, startStreaming, apiOnline, fetched.
  destruct (health_response w); try reflexivity.
  destruct (streamingActive st), (start_response w), (live_response w); cbn [negb];
    try reflexivity;
    match goal with
    | |- context [(0 <? ?n)%nat] => destruct (0 <? n)%nat; reflexivity
    end.
Qed.

Lemma length_sortedTweets (w : World num) (l : list (Tweet num)) :
  List.length (sortedTweets w l) = List.length l.
Proof.
  unfold sortedTweets, mapi. rewrite length_mapi_from.
  unfold sort. induction l as [|x l IH]; [reflexivity|].
  cbn [fold_right List.length]. rewrite <- IH.
  generalize (fold_right (insert byPriority) [] l) as sorted.
  induction sorted as [|y sorted IHs]; [reflexivity|].
  cbn [insert]. destruct (before byPriority y x); cbn [List.length]; congruence.
Qed.

Lemma map_mapi_from {A B C : Type} (g : B -> C) (h : A -> C) (f : A -> nat -> B)
  (l : list A) :
  (forall x index, g (f x index) = h x) ->
  forall start, map g (mapi_from f start l) = map h l.
Proof.
  intros Hf. induction l as [|x l IH]; intros start; simpl; [reflexivity|].
  now rewrite Hf, IH.
Qed.

(** C10.  After a run of [loadTweets] the alert list is not empty: when the
    health check fails, when the live request fails or throws, and when it
    returns no alert, the list is that of [getMockTweets], which has five
    entries, each with [simulation: true]. *)
Theorem loadTweets_never_empty (w : World num) (st : AppState num) :
  tweets (loadTweets w st) <> []
  /\ (health_response w = fetch_error
      \/ (exists status, health_response w = fetch_status status)
      \/ live_response w = fetch_error
      \/ (exists status, live_response w = fetch_status status)
      \/ fetched w = []
      -> tweets (loadTweets w st) = getMockTweets w)
  /\ List.length (getMockTweets w) = 5%nat
  /\ Forall (fun tweet => simulation tweet = true) (getMockTweets w).
Proof.
  rewrite loadTweets_tweets. split; [|split; [|split]].
  - destruct (apiOnline w); [|discriminate].
    destruct (Nat.ltb_spec 0 (List.length (fetched w))) as [L|L]; [|discriminate].
    intros E. apply (f_equal (@List.length _)) in E.
    rewrite length_sortedTweets in E. simpl in E. lia.
  - unfold apiOnline, fetched.
    intros [E|[(status & E)|[E|[(status & E)|E]]]]; rewrite ?E;
      try reflexivity; destruct (health_response w); try reflexivity;
      try (rewrite E; reflexivity).
  - reflexivity.
  - repeat constructor.
Qed.

End LoadTweets.

Section TopPriority.

Local Open Scope Q_scope.

Lemma rank_score (tweet : Tweet Q) : rank tweet == priority_score tweet.
Proof.
  unfold rank, or_zero, js_truthy, js_lit; simpl.
  destruct (Qeq_bool (priority_score tweet) 0) eqn:E; simpl; [|reflexivity].
  apply Qeq_bool_iff in E. now rewrite E.
Qed.

Lemma byPriority_rank (y x : Tweet Q) : byPriority y x == rank x - rank y.
Proof. reflexivity. Qed.

Lemma scored_sort (s : Q) (l : list (Tweet Q)) :
  scored s (sort byPriority l) = scored s l.
Proof.
  unfold scored. apply (sort_filter _ byPriority rank byPriority_rank).
  intros a b Ha Hb. apply Qeq_bool_iff in Ha, Hb.
  now rewrite !rank_score, Ha, Hb.
Qed.

Lemma sortedTweets_scores (w : World Q) (l : list (Tweet Q)) :
  map (@priority_score Q) (sortedTweets w l)
  = map (@priority_score Q) (sort byPriority l).
Proof. unfold sortedTweets, mapi. now apply map_mapi_from. Qed.

Lemma sorted_by_scores (l l' : list (Tweet Q)) :
  map (@priority_score Q) l' = map (@priority_score Q) l ->
  StronglySorted (fun a b => rank b <= rank a) l ->
  StronglySorted (fun a b => priority_score b <= priority_score a) l'.
Proof.
  revert l'. induction l as [|x l IH]; intros [|x' l'] E Hs; try discriminate;
    [constructor|].
  injection E as Ex El. inversion Hs as [|? ? Hs' Hx]; subst.
  constructor; [now apply IH|].
  apply Forall_forall. intros y' Hy'.
  apply (in_map (@priority_score Q)) in Hy'. rewrite El in Hy'.
  apply in_map_iff in Hy' as (y & Ey & Hy).
  rewrite Forall_forall in Hx. specialize (Hx y Hy).
  rewrite !rank_score in Hx. now rewrite Ex, <- Ey.
Qed.

(** C4.  When the API answers with alerts, the list [loadTweets] builds is
    in non-increasing order of priority score, and it is the fetched list
    sorted and then given ids and timestamps: the same alerts, those of one
    priority score in the order in which they were fetched (most recent
    first, when the API lists them so). *)
Theorem top_priority_sorted_stable (w : World Q) (st : AppState Q)
  (liveTweets : list (Tweet Q)) :
  apiOnline w = true -> fetched w = liveTweets -> liveTweets <> [] ->
  StronglySorted (fun a b => priority_score b <= priority_score a)
                 (tweets (loadTweets w st))
  /\ exists sorted,
       tweets (loadTweets w st) = mapi (stamp w) sorted
       /\ map (@priority_score Q) (tweets (loadTweets w st))
          = map (@priority_score Q) sorted
       /\ map (@text Q) (tweets (loadTweets w st)) = map (@text Q) sorted
       /\ Permutation sorted liveTweets
       /\ forall s, scored s sorted = scored s liveTweets.
Proof.
  intros Honline Hlive Hne. rewrite loadTweets_tweets, Honline, Hlive.
  replace (0 <? List.length liveTweets)%nat with true
    by (symmetry; apply Nat.ltb_lt; destruct liveTweets; [congruence | simpl; lia]).
  split.
  - apply (sorted_by_scores (sort byPriority liveTweets)).
    + apply sortedTweets_scores.
    + apply (sort_sorted _ byPriority rank byPriority_rank).
  - exists (sort byPriority liveTweets). split; [reflexivity|].
    split; [apply sortedTweets_scores|].
    split; [unfold sortedTweets, mapi; now apply map_mapi_from|].
    split; [apply sort_permutation | intros s; apply scored_sort].
Qed.

Lemma top_priority_sorted_stable_witness :
  StronglySorted (fun a b => priority_score b <= priority_score a)
                 (tweets (loadTweets online_world initial_state))
  /\ map (@text Q) (tweets (loadTweets online_world initial_state))
     = ["middle"; "newest"; "oldest"]%string.
Proof.
  destruct (top_priority_sorted_stable online_world initial_state live_alerts)
    as (Hs & _); [reflexivity | reflexivity | discriminate |].
  split; [exact Hs | reflexivity].
Defined.

End TopPriority.

(* ================================================================== *)
(** * The provider fallback *)

Section FallbackFacts.

Import Fallback.

Variable Item : Type.
Variable search : Provider -> nat -> string -> nat -> Result (list Item).
Variables (query : string) (max_results : nat).

(** The three things the first call of a provider can do. *)
Lemma first_call (p : Provider) :
  (exists tweet rest, search p 0 query max_results = returned (tweet :: rest))
  \/ returns_nothing search p query max_results
  \/ raises search p query max_results.
Proof.
  unfold returns_nothing, raises.
  destruct (search p 0 query max_results) as [[|tweet rest]|e]; eauto.
Qed.

Lemma not_moving_on (p : Provider) tweet rest :
  search p 0 query max_results = returned (tweet :: rest) ->
  ~ (raises search p query max_results \/ returns_nothing search p query max_results).
Proof.
  unfold raises, returns_nothing. intros E [(e & E')|E']; congruence.
Qed.

Ltac run_fallback :=
  unfold run, search_tweets_resilient, search_tweets_with_fallback,
    bind, try_except, search_tweets;
  simpl.

Lemma resilient_primary tweet rest :
  search primary_api 0 query max_results = returned (tweet :: rest) ->
  run (search_tweets_resilient search query max_results)
  = (returned (tweet :: rest), [primary_api]).
Proof.
  intros E. run_fallback. now rewrite E.
Qed.

Lemma resilient_backup tweet rest :
  raises search primary_api query max_results
  \/ returns_nothing search primary_api query max_results ->
  search backup_api 0 query max_results = returned (tweet :: rest) ->
  run (search_tweets_resilient search query max_results)
  = (returned (tweet :: rest), [primary_api; backup_api]).
Proof.
  intros [(e & E)|E] E'; run_fallback; rewrite E; simpl; now rewrite E'.
Qed.

Lemma resilient_simulation :
  raises search primary_api query max_results
  \/ returns_nothing search primary_api query max_results ->
  raises search backup_api query max_results
  \/ returns_nothing search backup_api query max_results ->
  run (search_tweets_resilient search query max_results)
  = (search simulation 0 query max_results, [primary_api; backup_api; simulation]).
Proof.
  intros [(e & E)|E] [(e' & E')|E'];
    run_fallback; rewrite E; simpl; rewrite E'; simpl;
    destruct (search simulation 0 query max_results); reflexivity.
Qed.

Lemma fallback_real tweet rest :
  search real_api 0 query max_results = returned (tweet :: rest) ->
  run (search_tweets_with_fallback search false query max_results)
  = (returned (tweet :: rest), [real_api]).
Proof.
  intros E. run_fallback. now rewrite E.
Qed.

Lemma fallback_after_error :
  raises search real_api query max_results ->
  run (search_tweets_with_fallback search false query max_results)
  = (search simulation 0 query max_results, [real_api; simulation]).
Proof.
  intros (e & E). run_fallback. rewrite E. reflexivity.
Qed.

Lemma fallback_after_nothing :
  returns_nothing search real_api query max_results ->
  run (search_tweets_with_fallback search false query max_results)
  = match search simulation 0 query max_results with
    | returned tweets => (returned tweets, [real_api; simulation])
    | raised _ =>
        (search simulation 1 query max_results, [real_api; simulation; simulation])
    end.
Proof.
  intros E. run_fallback. rewrite E. simpl.
  destruct (search simulation 0 query max_results); reflexivity.
Qed.

Lemma fallback_simulation_mode :
  run (search_tweets_with_fallback search true query max_results)
  = match search simulation 0 query max_results with
    | returned tweets => (returned tweets, [simulation])
    | raised _ => (search simulation 1 query max_results, [simulation; simulation])
    end.
Proof.
  run_fallback. destruct (search simulation 0 query max_results); reflexivity.
Qed.

(** C3, amended.  The fallback stops at the first provider that returns a
    list that is not empty, and that list is the result.  A later provider
    is called exactly when the one before raised an error or returned an
    empty list; the simulation comes last and its result is the result,
    whatever it is ([search_tweets_with_fallback] calls it once more when
    its call after an empty list raised). *)
Theorem fallback_stops_at_first_tweets :
  let resilient := run (search_tweets_resilient search query max_results) in
  let fallback := run (search_tweets_with_fallback search false query max_results) in
  let moves_on p :=
    raises search p query max_results \/ returns_nothing search p query max_results in
  (forall tweet rest,
      search primary_api 0 query max_results = returned (tweet :: rest) ->
      resilient = (returned (tweet :: rest), [primary_api]))
  /\ (forall tweet rest,
         moves_on primary_api ->
         search backup_api 0 query max_results = returned (tweet :: rest) ->
         resilient = (returned (tweet :: rest), [primary_api; backup_api]))
  /\ (moves_on primary_api -> moves_on backup_api ->
      resilient = (search simulation 0 query max_results,
                   [primary_api; backup_api; simulation]))
  /\ (In backup_api (snd resilient) <-> moves_on primary_api)
  /\ (In simulation (snd resilient) <-> moves_on primary_api /\ moves_on backup_api)
  /\ (forall tweet rest,
         search real_api 0 query max_results = returned (tweet :: rest) ->
         fallback = (returned (tweet :: rest), [real_api]))
  /\ (raises search real_api query max_results ->
      fallback = (search simulation 0 query max_results, [real_api; simulation]))
  /\ (returns_nothing search real_api query max_results ->
      fallback = match search simulation 0 query max_results with
                 | returned tweets => (returned tweets, [real_api; simulation])
                 | raised _ => (search simulation 1 query max_results,
                                [real_api; simulation; simulation])
                 end)
  /\ (In simulation (snd fallback) <-> moves_on real_api)
  /\ ~ In real_api
         (snd (run (search_tweets_with_fallback search true query max_results))).
Proof.
  cbv zeta.
  split; [exact resilient_primary|].
  split; [exact resilient_backup|].
  split; [exact resilient_simulation|].
  split; [|split]; [| |split; [exact fallback_real|];
                       split; [exact fallback_after_error|];
                       split; [exact fallback_after_nothing|]; split].
  - destruct (first_call primary_api) as [(t & r & E)|[E|E]].
    + rewrite (resilient_primary _ _ E).
      split; [intros [D|[]]; discriminate | intros M; now apply not_moving_on in E].
    + destruct (first_call backup_api) as [(t & r & E')|[E'|E']].
      * rewrite (resilient_backup _ _ (or_intror E) E'). simpl; tauto.
      * rewrite (resilient_simulation (or_intror E) (or_intror E')). simpl; tauto.
      * rewrite (resilient_simulation (or_intror E) (or_introl E')). simpl; tauto.
    + destruct (first_call backup_api) as [(t & r & E')|[E'|E']].
      * rewrite (resilient_backup _ _ (or_introl E) E'). simpl; tauto.
      * rewrite (resilient_simulation (or_introl E) (or_intror E')). simpl; tauto.
      * rewrite (resilient_simulation (or_introl E) (or_introl E')). simpl; tauto.
  - destruct (first_call primary_api) as [(t & r & E)|[E|E]].
    + rewrite (resilient_primary _ _ E).
      split; [intros [D|[]]; discriminate | intros [M _]; now apply not_moving_on in E].
    + destruct (first_call backup_api) as [(t & r & E')|[E'|E']].
      * rewrite (resilient_backup _ _ (or_intror E) E').
        split; [intros [D|[D|[]]]; discriminate
               | intros [_ M]; now apply not_moving_on in E'].
      * rewrite (resilient_simulation (or_intror E) (or_intror E')). simpl; tauto.
      * rewrite (resilient_simulation (or_intror E) (or_introl E')). simpl; tauto.
    + destruct (first_call backup_api) as [(t & r & E')|[E'|E']].
      * rewrite (resilient_backup _ _ (or_introl E) E').
        split; [intros [D|[D|[]]]; discriminate
               | intros [_ M]; now apply not_moving_on in E'].
      * rewrite (resilient_simulation (or_introl E) (or_intror E')). simpl; tauto.
      * rewrite (resilient_simulation (or_introl E) (or_introl E')). simpl; tauto.
  - destruct (first_call real_api) as [(t & r & E)|[E|E]].
    + rewrite (fallback_real _ _ E).
      split; [intros [D|[]]; discriminate | intros M; now apply not_moving_on in E].
    + rewrite (fallback_after_nothing E).
      destruct (search simulation 0 query max_results); simpl; tauto.
    + rewrite (fallback_after_error E). simpl; tauto.
  - rewrite fallback_simulation_mode.
    destruct (search simulation 0 query max_results); simpl; intuition discriminate.
Qed.

End FallbackFacts.

(** C3, as stated, fails where a provider returns an empty list: the
    primary returns one, which is no error, and the backup and the
    simulation are called all the same; the result is the simulation's. *)
Lemma first_result_does_not_stop :
  Fallback.only_simulation Fallback.primary_api 0 "earthquake" 50 = Fallback.returned []
  /\ Fallback.run (Fallback.search_tweets_resilient
                     Fallback.only_simulation "earthquake" 50)
     = (Fallback.returned ["simulated tweet"%string],
        [Fallback.primary_api; Fallback.backup_api; Fallback.simulation])
  /\ Fallback.run (Fallback.search_tweets_with_fallback
                     Fallback.only_simulation false "earthquake" 50)
     = (Fallback.returned ["simulated tweet"%string],
        [Fallback.real_api; Fallback.simulation])
  /\ ~ Fallback.stops_at_first_result.
Proof.
  split; [reflexivity|]. split; [reflexivity|]. split; [reflexivity|].
  intros Hs.
  destruct (Hs string Fallback.only_simulation "earthquake"%string 50%nat [])
    as [Hr _].
  specialize (Hr eq_refl). discriminate Hr.
Qed.

(* ================================================================== *)
(** * The priority score *)

Section ScorerFacts.

Import Scorer.

Local Open Scope Q_scope.

Lemma clamp_bounds (x : Q) : 0 <= clamp x <= 1.
Proof.
  unfold clamp.
  destruct (Q.min_spec 1 x) as [[L E]|[L E]], (Q.max_spec 0 (Qmin 1 x)) as [[L' E']|[L' E']];
    rewrite E' in *; try rewrite E in *; split; lra.
Qed.

Lemma clamp_cases (x : Q) :
  (1 <= x -> clamp x == 1) /\ (0 <= x <= 1 -> clamp x == x) /\ (x <= 0 -> clamp x == 0).
Proof.
  unfold clamp.
  destruct (Q.min_spec 1 x) as [[L E]|[L E]], (Q.max_spec 0 (Qmin 1 x)) as [[L' E']|[L' E']];
    rewrite E' in *; try rewrite E in *; repeat split; intros; lra.
Qed.

(** The alerts of [getMockTweets]: the recorded factors sum to more than 1
    and the recorded priority score is 1, the clamped sum. *)
Lemma mock_scores_saturate :
  Forall (fun alert =>
            exists f, priority_factors alert = Some f
                      /\ 1 < total f
                      /\ priority_score alert == clamp (total f)
                      /\ priority_score alert == 1
                      /\ 0 <= confidence alert <= 1)
         mock_alerts.
Proof.
  repeat constructor; eexists; (split; [reflexivity|]); vm_compute; intuition discriminate.
Qed.

(** C2.  For every alert the scorer produces, the priority score and the
    confidence lie in [0, 1]; the score is the sum of the base confidence
    and of the urgency, location and keyword bonuses, clamped: 1 when the
    sum is 1 or more, the sum itself when it lies in [0, 1].  The alerts of
    [getMockTweets] agree: their factors sum to more than 1 and their
    priority score is 1. *)
Theorem score_clamped (cfg : Config) (text : string) (classifierConfidence : Q)
  (coordinate : option (Q * Q)) (coordinateConfidence : Q) :
  let alert := scoreAlert cfg text classifierConfidence coordinate coordinateConfidence in
  let f := factors cfg text classifierConfidence
                   (match coordinate with Some _ => true | None => false end)
                   coordinateConfidence in
  0 <= priority_score alert <= 1
  /\ 0 <= confidence alert <= 1
  /\ priority_factors alert = Some f
  /\ priority_score alert
     == clamp (base_confidence f + urgency_boost f + location_boost f + keyword_boost f)
  /\ (1 <= total f -> priority_score alert == 1)
  /\ (0 <= total f <= 1 -> priority_score alert == total f)
  /\ Forall (fun mock =>
               exists f, priority_factors mock = Some f
                         /\ 1 < total f
                         /\ priority_score mock == clamp (total f)
                         /\ priority_score mock == 1
                         /\ 0 <= confidence mock <= 1)
            mock_alerts.
Proof.
  cbv zeta. unfold scoreAlert, score; cbn [priority_score confidence priority_factors].
  split; [apply clamp_bounds|]. split; [apply clamp_bounds|].
  split; [reflexivity|]. split; [reflexivity|].
  split; [apply clamp_cases|]. split; [apply clamp_cases|].
  exact mock_scores_saturate.
Qed.

(** A text mentions a keyword set when one of its terms occurs in it. *)
Lemma mentions_iff (keywords : list string) (text : string) :
  mentions keywords text = true
  <-> exists k, In k keywords
                /\ Str.includes (Str.toLowerCase k) (Str.toLowerCase text) = true.
Proof. unfold mentions. apply existsb_exists. Qed.

Lemma urgency_boost_cases (cfg : Config) (text : string) (classifierConfidence : Q)
  (hasExplicitCoordinate : bool) (coordinateConfidence : Q) :
  urgency_boost (factors cfg text classifierConfidence
                         hasExplicitCoordinate coordinateConfidence)
  = if mentions (urgency_keywords cfg) text then urgency_bonus cfg else 0.
Proof. reflexivity. Qed.

(** C8.  The urgency bonus of the scorer is one constant of the
    configuration: over the alerts the scorer produces, one keyword set and
    one amount account for every urgency boost.  An alert carries the
    amount when its text contains a term of the set, whichever term and
    however many, and 0 when it contains none; two alerts whose texts
    contain such terms carry the same boost; and the boost enters the sum
    that is clamped once. *)
Theorem urgency_bonus_single (cfg : Config) (alerts : list (Tweet Q)) :
  Forall (fun alert =>
            exists text classifierConfidence coordinate coordinateConfidence,
              alert = scoreAlert cfg text classifierConfidence
                                 coordinate coordinateConfidence)
         alerts ->
  single_urgency_bonus alerts
  /\ (forall alert f,
        In alert alerts -> priority_factors alert = Some f ->
        ((exists k, In k (urgency_keywords cfg)
                    /\ Str.includes (Str.toLowerCase k)
                                     (Str.toLowerCase (text alert)) = true)
         -> urgency_boost f = urgency_bonus cfg)
        /\ ((forall k, In k (urgency_keywords cfg) ->
                       Str.includes (Str.toLowerCase k)
                                    (Str.toLowerCase (text alert)) = false)
            -> urgency_boost f = 0)
        /\ priority_score alert
           == clamp (base_confidence f + urgency_boost f
                     + location_boost f + keyword_boost f))
  /\ (forall a b fa fb,
        In a alerts -> In b alerts ->
        priority_factors a = Some fa -> priority_factors b = Some fb ->
        mentions (urgency_keywords cfg) (text a) = true ->
        mentions (urgency_keywords cfg) (text b) = true ->
        urgency_boost fa = urgency_boost fb).
Proof.
  intros Hall. rewrite Forall_forall in Hall.
  assert (Hboost : forall alert f,
             In alert alerts -> priority_factors alert = Some f ->
             urgency_boost f
             = (if mentions (urgency_keywords cfg) (text alert)
                then urgency_bonus cfg else 0)
             /\ priority_score alert
                == clamp (base_confidence f + urgency_boost f
                          + location_boost f + keyword_boost f)).
  { intros alert f Hi Hf.
    destruct (Hall _ Hi) as (txt & conf & coordinate & cc & ->).
    cbn [scoreAlert priority_factors text priority_score] in *.
    injection Hf as <-. split; [apply urgency_boost_cases | reflexivity]. }
  split; [|split].
  - exists (urgency_keywords cfg), (urgency_bonus cfg).
    intros alert f Hi Hf. destruct (Hboost _ _ Hi Hf) as [-> _]. reflexivity.
  - intros alert f Hi Hf. destruct (Hboost _ _ Hi Hf) as [Hb Hs].
    split; [|split; [|exact Hs]].
    + intros Hk. apply mentions_iff in Hk. now rewrite Hb, Hk.
    + intros Hk. rewrite Hb.
      destruct (mentions (urgency_keywords cfg) (text alert)) eqn:Hm; [|reflexivity].
      apply mentions_iff in Hm as (k & Hin & Hinc).
      rewrite (Hk _ Hin) in Hinc. discriminate.
  - intros a b fa fb Ha Hb Hfa Hfb Hma Hmb.
    destruct (Hboost _ _ Ha Hfa) as [-> _]. destruct (Hboost _ _ Hb Hfb) as [-> _].
    now rewrite Hma, Hmb.
Qed.

Lemma scored_examples_scored :
  Forall (fun alert =>
            exists text classifierConfidence coordinate coordinateConfidence,
              alert = scoreAlert documented_config text classifierConfidence
                                 coordinate coordinateConfidence)
         scored_examples.
Proof. repeat constructor; do 4 eexists; reflexivity. Qed.

Lemma urgency_bonus_single_witness :
  single_urgency_bonus scored_examples
  /\ map (fun alert => option_map (@urgency_boost Q) (priority_factors alert))
         scored_examples
     = [Some 0.3; Some 0.3; Some 0].
Proof.
  destruct (urgency_bonus_single documented_config scored_examples
              scored_examples_scored) as [Hs _].
  exact (conj Hs eq_refl).
Defined.

End ScorerFacts.

(* ================================================================== *)
(** * The markers of the map *)

Section ListFacts.

Context {A : Type}.

Local Open Scope nat_scope.

(** A filter that starts with [x]: [x] is the first element that passes. *)
Lemma filter_first (p : A -> bool) (l : list A) (x : A) (rest : list A) :
  filter p l = x :: rest ->
  exists before after,
    l = before ++ x :: after /\ Forall (fun y => p y = false) before
    /\ p x = true /\ filter p after = rest.
Proof.
  induction l as [|y l IH]; simpl; [discriminate|].
  destruct (p y) eqn:Hy.
  - intros E; injection E as -> <-. exists [], l. auto.
  - intros E. destruct (IH E) as (before & after & -> & Hb & Hx & Ha).
    exists (y :: before), after. auto.
Qed.

Lemma findIndex_first (p : A -> bool) (before after : list A) (x : A) :
  Forall (fun y => p y = false) before -> p x = true ->
  findIndex p (before ++ x :: after) = Z.of_nat (List.length before).
Proof.
  intros Hb Hx. induction Hb as [|y before Hy Hb IH]; simpl.
  - now rewrite Hx.
  - rewrite Hy, IH.
    destruct (Z.ltb_spec (Z.of_nat (List.length before)) 0); lia.
Qed.

Lemma list_sum_at_least (f : A -> nat) (l : list A) :
  (forall x, In x l -> 1 <= f x) -> List.length l <= list_sum (map f l).
Proof.
  induction l as [|x l IH]; simpl; intros Hf; [lia|].
  assert (1 <= f x) by auto. assert (List.length l <= list_sum (map f l)) by auto.
  lia.
Qed.

End ListFacts.

Section MarkerFacts.

Context {num : Type} `{JsNumber num}.

Local Open Scope nat_scope.

Implicit Types (o : Groups num) (g : Group.t num) (key : string)
  (ts : list (Tweet num)) (tweet : Tweet num) (cl : Cluster num).

(** The sum of the counts of [locationGroups]. *)
Let total o : nat := list_sum (map (fun e => Group.count (snd e)) o).

Lemma total_app o o' : total (o ++ o') = total o + total o'.
Proof. unfold total. now rewrite map_app, list_sum_app. Qed.

Lemma total_update key tweet o g :
  lookup key o = Some g -> total (update key (record tweet) o) = total o + 1.
Proof.
  induction o as [|[k g'] o IH]; simpl; [discriminate|].
  destruct (String.eqb key k).
  - intros _. unfold total; simpl. lia.
  - intros E. specialize (IH E). unfold total in *; simpl. lia.
Qed.

Lemma total_addTweet o tweet :
  total (addTweet o tweet) = total o + (if hasCoordinates tweet then 1 else 0).
Proof.
  unfold addTweet, hasCoordinates. destruct (coordinates tweet) as [c|]; [|lia].
  cbv zeta. destruct (lookup (keyOf c) o) as [g|] eqn:Hl.
  - now apply total_update with (g := g).
  - rewrite update_last by assumption. rewrite total_app. unfold total; simpl. lia.
Qed.

Lemma total_fold ts : forall o,
  total (fold_left addTweet ts o) = total o + List.length (validTweets ts).
Proof.
  induction ts as [|tweet ts IH]; intros o; simpl; [lia|].
  rewrite IH, total_addTweet. unfold validTweets in *.
  destruct (hasCoordinates tweet); simpl; lia.
Qed.

Lemma fold_validTweets ts : forall o,
  fold_left addTweet (validTweets ts) o = fold_left addTweet ts o.
Proof.
  induction ts as [|tweet ts IH]; intros o; simpl; [reflexivity|].
  unfold hasCoordinates. destruct (coordinates tweet) as [c|] eqn:Hc; simpl.
  - apply IH.
  - replace (addTweet o tweet) with o; [apply IH|].
    unfold addTweet. now rewrite Hc.
Qed.

(** The entry at an index stays there, at its place, and takes tweets only
    at its end. *)
Lemma update_nth key f o i k g :
  nth_error o i = Some (k, g) ->
  nth_error (update key f o) i = Some (k, g)
  \/ nth_error (update key f o) i = Some (k, f g).
Proof.
  revert i. induction o as [|[k' g'] o IH]; intros [|i]; simpl; try discriminate.
  - intros E; injection E as -> ->. destruct (String.eqb key k); simpl; auto.
  - intros E. destruct (String.eqb key k'); simpl; auto.
Qed.

Lemma addTweet_nth o tweet i k g :
  nth_error o i = Some (k, g) ->
  exists g' added,
    nth_error (addTweet o tweet) i = Some (k, g')
    /\ Group.coordinates g' = Group.coordinates g
    /\ Group.tweets g' = Group.tweets g ++ added
    /\ incl added [tweet].
Proof.
  intros Hi. unfold addTweet. destruct (coordinates tweet) as [c|].
  2:{ exists g, []. rewrite app_nil_r. repeat split; auto. intros x []. }
  cbv zeta.
  set (o1 := match lookup (keyOf c) o with
             | Some _ => o
             | None => o ++ [(keyOf c, newGroup c)]
             end).
  assert (Hi1 : nth_error o1 i = Some (k, g)).
  { unfold o1. destruct (lookup (keyOf c) o); [assumption|].
    rewrite nth_error_app1; [assumption|].
    apply nth_error_Some. congruence. }
  destruct (update_nth (keyOf c) (record tweet) o1 i k g Hi1) as [E|E].
  - exists g, []. rewrite app_nil_r. repeat split; auto. intros x [].
  - exists (record tweet g), [tweet]. repeat split; auto. apply incl_refl.
Qed.

Lemma fold_nth more : forall o i k g,
  nth_error o i = Some (k, g) ->
  exists g' added,
    nth_error (fold_left addTweet more o) i = Some (k, g')
    /\ Group.coordinates g' = Group.coordinates g
    /\ Group.tweets g' = Group.tweets g ++ added
    /\ incl added more.
Proof.
  induction more as [|tweet more IH]; intros o i k g Hi; simpl.
  - exists g, []. rewrite app_nil_r. repeat split; auto. intros x [].
  - destruct (addTweet_nth o tweet i k g Hi) as (g1 & a1 & H1 & Hc1 & Ht1 & Hi1).
    destruct (IH _ _ _ _ H1) as (g2 & a2 & H2 & Hc2 & Ht2 & Hi2).
    exists g2, (a1 ++ a2). repeat split.
    + assumption.
    + congruence.
    + rewrite Ht2, Ht1. now rewrite app_assoc.
    + intros x Hx. apply in_app_or in Hx as [Hx|Hx].
      * apply Hi1 in Hx. destruct Hx as [<-|[]]. now left.
      * right. now apply Hi2.
Qed.

(** The counts of [locationGroups] after the loop. *)
Lemma counts_fold ts :
  list_sum (map (fun e => Group.count (snd e)) (fold_left addTweet ts []))
  = List.length (validTweets ts).
Proof. exact (total_fold ts []). Qed.

(** X1.  The counts of the clusters add up to the number of alerts that
    have coordinates: every such alert is counted, and counted once. *)
Theorem cluster_counts_total ts :
  list_sum (map (fun cl : Cluster num => Group.count cl) (useHeatmapData ts))
  = List.length (validTweets ts).
Proof.
  rewrite useHeatmapData_fold, !map_map.
  rewrite <- (counts_fold ts). reflexivity.
Qed.

Lemma clusters_at_most_valid ts :
  List.length (useHeatmapData ts) <= List.length (validTweets ts).
Proof.
  assert (E : list_sum (map (fun cl : Cluster num => Group.count cl) (useHeatmapData ts))
              = List.length (validTweets ts)).
  { rewrite useHeatmapData_fold, !map_map. exact (counts_fold ts). }
  rewrite <- E. apply list_sum_at_least.
  intros cl Hcl. destruct (cluster_statistics ts cl Hcl) as (Hne & Hc & _).
  rewrite Hc. destruct (Group.tweets cl); [congruence | simpl; lia].
Qed.

Lemma no_cluster_no_valid ts : useHeatmapData ts = [] -> validTweets ts = [].
Proof.
  rewrite useHeatmapData_fold. intros E.
  apply map_eq_nil in E. apply map_eq_nil in E.
  pose proof (counts_fold ts) as Ht. rewrite E in Ht. simpl in Ht.
  destruct (validTweets ts); [reflexivity | discriminate].
Qed.

(** X2.  The alerts without coordinates have no part in the clusters: the
    hook gives the same clusters on the alerts [FitBounds] keeps. *)
Theorem heatmap_of_valid_tweets ts :
  useHeatmapData (validTweets ts) = useHeatmapData ts.
Proof.
  rewrite !useHeatmapData_fold. do 2 f_equal. apply fold_validTweets.
Qed.

(** X3.  Alerts that arrive at the end of the list leave every marker at
    its index and at its place: the cluster at an index keeps its
    coordinates and its members, and takes new members at its end only. *)
Theorem markers_stable ts more i cl :
  nth_error (useHeatmapData ts) i = Some cl ->
  exists cl' added,
    nth_error (useHeatmapData (ts ++ more)) i = Some cl'
    /\ Group.coordinates cl' = Group.coordinates cl
    /\ Group.tweets cl' = Group.tweets cl ++ added
    /\ incl added more.
Proof.
  rewrite !useHeatmapData_fold, fold_left_app, !map_map, !nth_error_map.
  destruct (nth_error (fold_left addTweet ts []) i) as [[k g]|] eqn:Hi; [|discriminate].
  simpl. intros E; injection E as <-.
  destruct (fold_nth more _ _ _ _ Hi) as (g' & added & Hi' & Hc & Ht & Hincl).
  exists (finish g'), added. rewrite Hi'. simpl. auto.
Qed.

Lemma cluster_first ts cl :
  In cl (useHeatmapData ts) ->
  exists first rest before after,
    Group.tweets cl = first :: rest
    /\ coordinates first = Some (Group.coordinates cl)
    /\ ts = before ++ first :: after
    /\ Forall (fun tweet => hasKey (clusterKey cl) tweet = false) before
    /\ Forall (fun tweet => hasKey (clusterKey cl) tweet = true) (Group.tweets cl).
Proof.
  intros Hcl.
  destruct (cluster_members ts cl Hcl) as (key & first & c & rest & Em & Hf & ->).
  assert (Hk : keyOf c = key).
  { assert (Hi : In first (members key ts)) by (rewrite Em; now left).
    apply members_In in Hi as (_ & c' & Hc' & <-). congruence. }
  unfold clusterKey. simpl. rewrite Hk.
  destruct (filter_first _ _ _ _ Em) as (before & after & -> & Hb & _ & _).
  exists first, rest, before, after. rewrite <- Em. repeat split; auto.
  apply Forall_forall. intros t Ht. now apply filter_In in Ht.
Qed.

(** X4.  A marker stands at the coordinates of the first alert of its
    cluster, as they are and not rounded; that alert is the first one of the
    list with the key of the cluster, and the members of the cluster are the
    alerts of the list with that key, in the order of the list. *)
Theorem marker_at_first_member ts cl :
  In cl (useHeatmapData ts) ->
  exists first rest before after,
    Group.tweets cl = first :: rest
    /\ coordinates first = Some (Group.coordinates cl)
    /\ ts = before ++ first :: after
    /\ Forall (fun tweet => hasKey (clusterKey cl) tweet = false) before
    /\ Group.tweets cl = members (clusterKey cl) ts.
Proof.
  intros Hcl.
  destruct (cluster_first ts cl Hcl)
    as (first & rest & before & after & Et & Hc & E & Hb & _).
  exists first, rest, before, after. repeat split; try assumption.
  destruct (cluster_members ts cl Hcl) as (key & first' & c & rest' & Em & Hf & ->).
  unfold clusterKey. simpl.
  assert (Hi : In first' (members key ts)) by (rewrite Em; now left).
  apply members_In in Hi as (_ & c' & Hc' & <-). congruence.
Qed.

End MarkerFacts.

Section KeyFacts.

Context {num : Type} `{JsNumber num}.

(** X5.  No two clusters have the same key: the keys of the clusters, each
    taken from the coordinates the cluster is drawn at, are the keys of
    [locationGroups] in the order they were added, and no key is there
    twice. *)
Theorem cluster_keys_distinct (ts : list (Tweet num)) :
  NoDup (map clusterKey (useHeatmapData ts))
  /\ map clusterKey (useHeatmapData ts) = map fst (fold_left addTweet ts []).
Proof.
  destruct (grouped_all ts) as (Hnd & Hent & _).
  assert (E : map clusterKey (useHeatmapData ts) = map fst (fold_left addTweet ts [])).
  { rewrite useHeatmapData_fold, !map_map. apply map_ext_in.
    intros [key g] Hi. simpl.
    destruct (Hent _ _ Hi) as (first & c & rest & Em & Hf & ->).
    unfold clusterKey. simpl.
    assert (Hm : In first (members key ts)) by (rewrite Em; now left).
    apply members_In in Hm as (_ & c' & Hc' & <-). congruence. }
  split; [now rewrite E | exact E].
Qed.

End KeyFacts.

(** ** The rounding of [toFixed] *)

Section RoundingFacts.
Local Open Scope Q_scope.

Lemma nearest_bounds (y : Q) :
  0 <= y ->
  inject_Z (Z.of_N (Fixed.nearest y)) - (1 # 2) <= y
  /\ y < inject_Z (Z.of_N (Fixed.nearest y)) + (1 # 2).
Proof.
  intros Hy. unfold Fixed.nearest.
  assert (H0 : (0 <= Qfloor (y + (1 # 2)))%Z).
  { change 0%Z with (Qfloor 0). apply Qfloor_resp_le. lra. }
  rewrite Z2N.id by assumption.
  pose proof (Qfloor_le (y + (1 # 2))) as Hl.
  pose proof (Qlt_floor (y + (1 # 2))) as Hu.
  rewrite inject_Z_plus in Hu. change (inject_Z 1) with 1 in Hu.
  split; lra.
Qed.

Lemma rounded_close (x y : Q) :
  Fixed.rounded 3 x = Fixed.rounded 3 y -> Qabs (x - y) < 1 # 1000.
Proof.
  unfold Fixed.rounded. cbv zeta.
  change (inject_Z (10 ^ Z.of_nat 3)) with 1000.
  intros E. apply Qabs_Qlt_condition.
  assert (Hneg : Qle_bool 0 x = Qle_bool 0 y).
  { apply (f_equal fst) in E. simpl in E.
    destruct (Qle_bool 0 x), (Qle_bool 0 y); simpl in E; congruence. }
  apply (f_equal snd) in E. cbn [snd] in E. rewrite <- Hneg in E.
  destruct (Qle_bool 0 x) eqn:Hx; cbn [negb] in E; symmetry in Hneg.
  - apply Qle_bool_iff in Hx, Hneg.
    destruct (nearest_bounds (x * 1000)) as [A B]; [lra|].
    destruct (nearest_bounds (y * 1000)) as [C D]; [lra|].
    rewrite E in A, B. split; lra.
  - assert (Hx' : x < 0).
    { apply Qnot_le_lt. intros Hle. apply Qle_bool_iff in Hle. congruence. }
    assert (Hy' : y < 0).
    { apply Qnot_le_lt. intros Hle. apply Qle_bool_iff in Hle. congruence. }
    destruct (nearest_bounds (- x * 1000)) as [A B]; [lra|].
    destruct (nearest_bounds (- y * 1000)) as [C D]; [lra|].
    rewrite E in A, B. split; lra.
Qed.
End RoundingFacts.

(** ** The map *)

Section MapFacts.

Context {num : Type} `{JsNumber num} `{JsProduct num}.

Local Open Scope nat_scope.

Implicit Types (ts : list (Tweet num)) (tweet : Tweet num) (cl : Cluster num).

(** X7.  The "Active Locations" of the statistics are at most the alerts
    that have coordinates, which are at most the "Total Alerts"; and
    [FitBounds] leaves the map as it is exactly when no marker is drawn. *)
Theorem active_locations_bounds ts :
  activeLocations ts <= List.length (validTweets ts) <= totalAlerts ts
  /\ (FitBounds ts = None <-> markers ts = []).
Proof.
  unfold activeLocations, totalAlerts. split; [split|].
  - apply clusters_at_most_valid.
  - apply filter_length_le.
  - assert (Hv : FitBounds ts = None <-> validTweets ts = []).
    { unfold FitBounds. destruct (validTweets ts); split; congruence. }
    rewrite Hv. unfold markers. split.
    + intros E. pose proof (clusters_at_most_valid ts) as Hle. rewrite E in Hle.
      destruct (useHeatmapData ts); [reflexivity | simpl in Hle; lia].
    + intros E. apply map_eq_nil in E. now apply no_cluster_no_valid.
Qed.

(** X8.  A click on a marker selects an alert, never the index -1: the
    index passed on is that of the first member of the cluster, which is the
    first alert of the list in the cluster.  [same] is the identity of two
    alerts; an alert is identical to itself, and identical alerts are
    equal. *)
Theorem marker_click_selects_first (same : Tweet num -> Tweet num -> bool) ts cl :
  (forall a, same a a = true) ->
  (forall a b, same a b = true -> a = b) ->
  In cl (useHeatmapData ts) ->
  exists i first,
    markerClick same ts cl = Some (Z.of_nat i)
    /\ nth_error ts i = Some first
    /\ hd_error (Group.tweets cl) = Some first
    /\ forall j tweet, j < i -> nth_error ts j = Some tweet ->
                       ~ In tweet (Group.tweets cl).
Proof.
  intros Hrefl Heq Hcl.
  destruct (cluster_first ts cl Hcl)
    as (first & rest & before & after & Et & Hc & -> & Hb & Hm).
  rewrite Forall_forall in Hb, Hm.
  exists (List.length before), first. unfold markerClick. rewrite Et. simpl.
  split; [|split; [|split; [reflexivity|]]].
  - f_equal. apply findIndex_first; [|apply Hrefl].
    apply Forall_forall. intros y Hy.
    destruct (same y first) eqn:E; [|reflexivity].
    apply Heq in E. subst y.
    assert (hasKey (clusterKey cl) first = true) by (apply Hm; rewrite Et; now left).
    assert (hasKey (clusterKey cl) first = false) by now apply Hb.
    congruence.
  - rewrite nth_error_app2, Nat.sub_diag by lia. reflexivity.
  - intros j tweet Hj Hn Hi.
    rewrite nth_error_app1 in Hn by assumption.
    apply nth_error_In in Hn.
    assert (hasKey (clusterKey cl) tweet = true) by (apply Hm; rewrite Et; assumption).
    assert (hasKey (clusterKey cl) tweet = false) by now apply Hb.
    congruence.
Qed.

Lemma take_length n s : String.length (Str.take n s) <= n.
Proof.
  revert s. induction n as [|n IH]; intros [|c s]; simpl; try lia.
  specialize (IH s). lia.
Qed.

Lemma take_prefix n s : prefix (Str.take n s) s = true.
Proof.
  revert s. induction n as [|n IH]; intros [|c s]; simpl; try reflexivity.
  destruct (ascii_dec c c); [apply IH | congruence].
Qed.

(** X9.  The popup of a marker accounts for every alert of the cluster: it
    shows one or two texts, and the texts shown and the number of the "more
    alerts" line add up to the count; the line is missing exactly when the
    count is at most 2.  A text shown is the beginning of the text of a
    member, of at most 50 characters. *)
Theorem popup_accounts_for_all ts cl :
  In cl (useHeatmapData ts) ->
  let p := popup cl in
  List.length (popup_recent p)
  + match popup_more p with Some n => n | None => 0 end = popup_count p
  /\ 1 <= List.length (popup_recent p) <= 2
  /\ (popup_more p = None <-> popup_count p <= 2)
  /\ forall s, In s (popup_recent p) ->
       String.length s <= 50
       /\ exists tweet, In tweet (Group.tweets cl) /\ prefix s (text tweet) = true.
Proof.
  intros Hcl p.
  destruct (cluster_statistics ts cl Hcl) as (Hne & Hc & _).
  unfold p, popup. cbn [popup_recent popup_more popup_count]. rewrite Hc.
  destruct (Group.tweets cl) as [|t1 [|t2 [|t3 l]]] eqn:E; [congruence| | |];
    cbn -[Str.take].
  - split; [lia|]. split; [lia|]. split; [split; intros; try reflexivity; lia|].
    intros s [<-|[]]. split; [apply take_length|].
    exists t1. split; [now left | apply take_prefix].
  - split; [lia|]. split; [lia|]. split; [split; intros; try reflexivity; lia|].
    intros s [<-|[<-|[]]]; (split; [apply take_length|]).
    + exists t1. split; [now left | apply take_prefix].
    + exists t2. split; [right; now left | apply take_prefix].
  - split; [lia|]. split; [lia|]. split; [split; intros; try discriminate; lia|].
    intros s [<-|[<-|[]]]; (split; [apply take_length|]).
    + exists t1. split; [now left | apply take_prefix].
    + exists t2. split; [right; now left | apply take_prefix].
Qed.

(** The colour of a marker is the colour of the level of its number. *)
Lemma color_level (score : num) :
  legend (getPriorityColor score) = Some (getPriorityLevel score).
Proof.
  unfold getPriorityColor, getPriorityLevel.
  destruct (js_leb (js_lit 0.9) score); [reflexivity|].
  destruct (js_leb (js_lit 0.7) score); [reflexivity|].
  destruct (js_leb (js_lit 0.5) score); reflexivity.
Qed.

(** X6.  Two alerts of one cluster are less than a thousandth of a degree
    apart, in latitude and in longitude. *)
Theorem same_cluster_close ts cl a b ca cb :
  In cl (useHeatmapData ts) ->
  In a (Group.tweets cl) -> In b (Group.tweets cl) ->
  coordinates a = Some ca -> coordinates b = Some cb ->
  (Qabs (fst ca - fst cb) < 1 # 1000 /\ Qabs (snd ca - snd cb) < 1 # 1000)%Q.
Proof.
  intros Hcl Ha Hb Hca Hcb.
  destruct (cluster_first ts cl Hcl) as (_ & _ & _ & _ & _ & _ & _ & _ & Hm).
  rewrite Forall_forall in Hm.
  assert (Ka := Hm _ Ha). assert (Kb := Hm _ Hb).
  unfold hasKey in Ka, Kb. rewrite Hca in Ka. rewrite Hcb in Kb.
  apply String.eqb_eq in Ka, Kb.
  assert (E : keyOf ca = keyOf cb) by congruence.
  apply keyOf_eq_iff in E as [E1 E2].
  apply toFixed_eq_iff in E1, E2.
  split; now apply rounded_close.
Qed.

End MapFacts.

(** ** The markers in exact arithmetic *)

Section ExactMarkers.

Local Open Scope Q_scope.

Lemma Qle_bool_false (a b : Q) : Qle_bool a b = false -> b < a.
Proof.
  intros E. apply Qnot_le_lt. intros Hle. apply Qle_bool_iff in Hle. congruence.
Qed.

Lemma level_monotone (x y : Q) :
  x <= y -> (severity (getPriorityLevel x) <= severity (getPriorityLevel y))%nat.
Proof.
  intros Hxy. unfold getPriorityLevel, js_leb, js_lit, Exact.
  destruct (Qle_bool 0.9 x) eqn:X9; destruct (Qle_bool 0.7 x) eqn:X7;
    destruct (Qle_bool 0.5 x) eqn:X5;
    destruct (Qle_bool 0.9 y) eqn:Y9; destruct (Qle_bool 0.7 y) eqn:Y7;
    destruct (Qle_bool 0.5 y) eqn:Y5; simpl; try lia; exfalso;
    repeat match goal with
           | E : Qle_bool _ _ = true |- _ => apply Qle_bool_iff in E
           | E : Qle_bool _ _ = false |- _ => apply Qle_bool_false in E
           end; lra.
Qed.

Lemma level_or_zero (x : Q) : getPriorityLevel (or_zero x) = getPriorityLevel x.
Proof.
  unfold or_zero, js_truthy, Exact. destruct (Qeq_bool x 0) eqn:E; [|reflexivity].
  apply Qeq_bool_eq in E. simpl.
  unfold getPriorityLevel, js_leb, js_lit.
  destruct (Qle_bool 0.9 x) eqn:X9; destruct (Qle_bool 0.7 x) eqn:X7;
    destruct (Qle_bool 0.5 x) eqn:X5; try reflexivity; exfalso;
    repeat match goal with
           | E : Qle_bool _ _ = true |- _ => apply Qle_bool_iff in E
           | E : Qle_bool _ _ = false |- _ => apply Qle_bool_false in E
           end; lra.
Qed.

Lemma level_low (x : Q) : x <= 0 -> getPriorityLevel x = LOW.
Proof.
  intros Hx. unfold getPriorityLevel, js_leb, js_lit, Exact.
  destruct (Qle_bool 0.9 x) eqn:X9; destruct (Qle_bool 0.7 x) eqn:X7;
    destruct (Qle_bool 0.5 x) eqn:X5; try reflexivity; exfalso;
    repeat match goal with
           | E : Qle_bool _ _ = true |- _ => apply Qle_bool_iff in E
           | E : Qle_bool _ _ = false |- _ => apply Qle_bool_false in E
           end; lra.
Qed.

(** X11.  In exact arithmetic, the colour of a marker is the colour of the
    most severe badge among the alerts of its cluster: the legend reads the
    colour as the level of the intensity, no member has a badge of a higher
    level in the feed, and one member has that level. *)
Theorem marker_colour_most_severe (ts : list (Tweet Q)) (cl : Cluster Q)
  (sel : option nat) :
  In cl (useHeatmapData ts) ->
  legend (fillColor (marker cl)) = Some (getPriorityLevel (intensity cl))
  /\ (forall tweet index, In tweet (Group.tweets cl) ->
        (severity (item_level (renderItem sel tweet index))
         <= severity (getPriorityLevel (intensity cl)))%nat)
  /\ exists tweet, In tweet (Group.tweets cl)
       /\ forall index,
            item_level (renderItem sel tweet index) = getPriorityLevel (intensity cl).
Proof.
  intros Hcl.
  destruct (cluster_statistics ts cl Hcl) as (Hne & _ & _ & Hm & _ & Hi & _).
  rewrite Hi, Hm.
  destruct (maximum_from (scores (Group.tweets cl)) (js_lit 0)) as (H0 & Hub & Hmax).
  cbv zeta in *. fold (maxFromZero (scores (Group.tweets cl))) in *.
  split; [|split].
  - unfold marker; simpl. rewrite Hi, Hm. apply color_level.
  - intros tweet index Ht. simpl. rewrite level_or_zero. apply level_monotone.
    apply Hub. unfold scores. now apply in_map.
  - destruct Hmax as [E|Hin].
    + destruct (Group.tweets cl) as [|tweet rest] eqn:Et; [congruence|].
      exists tweet. split; [now left|]. intros index. rewrite E.
      cbn [renderItem item_level]. rewrite level_or_zero.
      assert (Hle : priority_score tweet <= maxFromZero (scores (tweet :: rest))).
      { apply Hub. now left. }
      rewrite E in Hle. change (js_lit 0) with 0 in *.
      rewrite !level_low by (assumption || lra). reflexivity.
    + unfold scores in Hin at 2. apply in_map_iff in Hin as (tweet & Es & Ht).
      exists tweet. split; [assumption|]. intros index. simpl.
      now rewrite level_or_zero, Es.
Qed.

(** X10.  In exact arithmetic, for priority scores in [0, 1]: a marker has
    a radius from 10 to 43 and a fill opacity from 0.3 to 0.8, and from ten
    alerts on the radius depends on the intensity only. *)
Theorem marker_geometry (tweets : list (Tweet Q)) (cl : Cluster Q) :
  Forall (fun tweet => in_unit_interval (priority_score tweet)) tweets ->
  In cl (useHeatmapData tweets) ->
  10 <= radius (marker cl) <= 43
  /\ 3 # 10 <= fillOpacity (marker cl) <= 8 # 10
  /\ ((10 <= Group.count cl)%nat -> radius (marker cl) == 28 + intensity cl * 15).
Proof.
  intros Hall Hcl.
  destruct (cluster_bounds_exact tweets Hall cl Hcl) as (Hn & _ & Ha0 & Ham & Hm1).
  destruct (cluster_statistics tweets cl Hcl) as (_ & _ & _ & _ & _ & Hi & _).
  unfold js_leb, js_lit, Exact in Ha0, Ham, Hm1.
  apply Qle_bool_iff in Ha0, Ham, Hm1.
  assert (Hc : 1 <= inject_Z (Z.of_nat (Group.count cl))).
  { change 1 with (inject_Z 1). rewrite <- Zle_Qle. lia. }
  unfold marker, getMarkerRadius, getMarkerOpacity; simpl. rewrite Hi.
  unfold js_min, js_max, js_mul, js_add, js_of_nat, js_lit, Exact_product, Exact.
  destruct (Qle_bool (inject_Z (Z.of_nat (Group.count cl)) * 2) 20) eqn:E20;
    destruct (Qle_bool 0.3 (Group.maxPriority cl * 0.8)) eqn:E3;
    repeat match goal with
           | E : Qle_bool _ _ = true |- _ => apply Qle_bool_iff in E
           | E : Qle_bool _ _ = false |- _ => apply Qle_bool_false in E
           end;
    (split; [split; lra | split; [split; lra|]]);
    intros H10;
    assert (Hc10 : 10 <= inject_Z (Z.of_nat (Group.count cl)))
      by (change 10 with (inject_Z 10); rewrite <- Zle_Qle; lia);
    lra.
Qed.

End ExactMarkers.

(** ** The theorems on the markers, at three alerts of which two are a few
    metres apart *)

Lemma nearby_cluster_listed :
  nth_error (useHeatmapData nearby_alerts) 0 = Some nearby_cluster.
Proof. vm_compute. reflexivity. Qed.

Lemma nearby_cluster_In : In nearby_cluster (useHeatmapData nearby_alerts).
Proof. vm_compute. left. reflexivity. Qed.

Lemma nearby_scores :
  Forall (fun tweet => in_unit_interval (priority_score tweet)) nearby_alerts.
Proof. repeat constructor. Qed.

Lemma sameAlert_refl (a : Tweet Q) : sameAlert a a = true.
Proof. unfold sameAlert. destruct (Tweet_eq_dec a a); congruence. Qed.

Lemma sameAlert_eq (a b : Tweet Q) : sameAlert a b = true -> a = b.
Proof. unfold sameAlert. destruct (Tweet_eq_dec a b); congruence. Qed.

Lemma markers_stable_witness :
  exists cl' added,
    nth_error (useHeatmapData (nearby_alerts ++ mock_alerts)) 0 = Some cl'
    /\ Group.coordinates cl' = Group.coordinates nearby_cluster
    /\ Group.tweets cl' = ([pier; market] ++ added)%list
    /\ incl added mock_alerts.
Proof.
  exact (markers_stable nearby_alerts mock_alerts 0 nearby_cluster nearby_cluster_listed).
Defined.

Lemma marker_at_first_member_witness :
  exists first rest before after,
    Group.tweets nearby_cluster = first :: rest
    /\ coordinates first = Some (Group.coordinates nearby_cluster)
    /\ nearby_alerts = (before ++ first :: after)%list
    /\ Forall (fun tweet => hasKey (clusterKey nearby_cluster) tweet = false) before
    /\ Group.tweets nearby_cluster = members (clusterKey nearby_cluster) nearby_alerts.
Proof.
  exact (marker_at_first_member nearby_alerts nearby_cluster nearby_cluster_In).
Defined.

Lemma same_cluster_close_witness :
  Qabs (coord 37.7750 - coord 37.7751) < 1 # 1000
  /\ Qabs (coord (-122.4190) - coord (-122.4194)) < 1 # 1000.
Proof.
  refine (same_cluster_close nearby_alerts nearby_cluster pier market _ _
            nearby_cluster_In _ _ eq_refl eq_refl).
  - left. reflexivity.
  - right. left. reflexivity.
Defined.

Lemma marker_click_selects_first_witness :
  exists i first,
    markerClick sameAlert (harbor :: nearby_alerts) nearby_cluster = Some (Z.of_nat i)
    /\ nth_error (harbor :: nearby_alerts) i = Some first
    /\ hd_error (Group.tweets nearby_cluster) = Some first
    /\ forall j tweet,
         (j < i)%nat -> nth_error (harbor :: nearby_alerts) j = Some tweet ->
         ~ In tweet (Group.tweets nearby_cluster).
Proof.
  refine (marker_click_selects_first sameAlert (harbor :: nearby_alerts) nearby_cluster
            sameAlert_refl sameAlert_eq _).
  vm_compute. right. left. reflexivity.
Defined.

Lemma popup_accounts_for_all_witness :
  let p := popup nearby_cluster in
  (List.length (popup_recent p)
   + match popup_more p with Some n => n | None => 0 end = popup_count p)%nat
  /\ (1 <= List.length (popup_recent p) <= 2)%nat
  /\ (popup_more p = None <-> (popup_count p <= 2)%nat)
  /\ forall s, In s (popup_recent p) ->
       (String.length s <= 50)%nat
       /\ exists tweet, In tweet (Group.tweets nearby_cluster)
                        /\ prefix s (text tweet) = true.
Proof.
  exact (popup_accounts_for_all nearby_alerts nearby_cluster nearby_cluster_In).
Defined.

Lemma marker_colour_most_severe_witness :
  legend (fillColor (marker nearby_cluster)) = Some CRITICAL
  /\ item_level (renderItem None market 2) = CRITICAL
  /\ item_level (renderItem None pier 0) = MEDIUM.
Proof.
  destruct (marker_colour_most_severe nearby_alerts nearby_cluster None nearby_cluster_In)
    as (Hc & _ & _).
  exact (conj Hc (conj eq_refl eq_refl)).
Defined.

Lemma marker_geometry_witness :
  10 <= radius (marker nearby_cluster) <= 43
  /\ 3 # 10 <= fillOpacity (marker nearby_cluster) <= 8 # 10.
Proof.
  destruct (marker_geometry nearby_alerts nearby_cluster nearby_scores nearby_cluster_In)
    as (Hr & Ho & _).
  exact (conj Hr Ho).
Defined.

(* ================================================================== *)
(** * The rows of the feed *)

Section TimeAgo.

Local Open Scope Z_scope.
Local Open Scope string_scope.

(** X12.  [getTimeAgo] prints a whole number of seconds, minutes, hours or
    days, the number of whole units in the age rounded down to seconds.  For
    a timestamp that is not in the future the number is below 60 for seconds
    and minutes and below 24 for hours, and at least 1 for the units above
    the second; a timestamp in the future is printed in seconds, with a
    negative number. *)
Theorem getTimeAgo_units (now timestamp : Z) :
  let diff := (now - timestamp) / 1000 in
  exists (n size : Z) (unit : string),
    getTimeAgo now timestamp = show_int n ++ unit ++ " ago"
    /\ In (size, unit) [(1, "s"); (60, "m"); (3600, "h"); (86400, "d")]
    /\ size * n <= diff < size * (n + 1)
    /\ (diff < 0 -> unit = "s")
    /\ (0 <= diff ->
        (unit = "s" -> 0 <= n < 60) /\ (unit = "m" -> 1 <= n < 60)
        /\ (unit = "h" -> 1 <= n < 24) /\ (unit = "d" -> 1 <= n)).
Proof.
  intros diff. unfold getTimeAgo. fold diff.
  destruct (Z.ltb_spec diff 60) as [H60|H60];
    [|destruct (Z.ltb_spec diff 3600) as [H3600|H3600];
      [|destruct (Z.ltb_spec diff 86400) as [H86400|H86400]]].
  - exists diff, 1, "s". split; [reflexivity|]. split; [simpl; auto|].
    split; [lia|]. split; [reflexivity|]. intros H0.
    repeat split; try discriminate; lia.
  - pose proof (Z.div_mod diff 60 ltac:(lia)) as E.
    pose proof (Z.mod_pos_bound diff 60 ltac:(lia)) as B.
    exists (diff / 60), 60, "m". split; [reflexivity|]. split; [simpl; auto|].
    split; [lia|]. split; [lia|]. intros H0.
    repeat split; try discriminate; lia.
  - pose proof (Z.div_mod diff 3600 ltac:(lia)) as E.
    pose proof (Z.mod_pos_bound diff 3600 ltac:(lia)) as B.
    exists (diff / 3600), 3600, "h". split; [reflexivity|]. split; [simpl; auto|].
    split; [lia|]. split; [lia|]. intros H0.
    repeat split; try discriminate; lia.
  - pose proof (Z.div_mod diff 86400 ltac:(lia)) as E.
    pose proof (Z.mod_pos_bound diff 86400 ltac:(lia)) as B.
    exists (diff / 86400), 86400, "d". split; [reflexivity|]. split; [simpl; auto 6|].
    split; [lia|]. split; [lia|]. intros H0.
    repeat split; try discriminate; lia.
Qed.

End TimeAgo.

Section SelectionFacts.

Context {num : Type} `{JsNumber num}.

Local Open Scope nat_scope.

Lemma nth_error_feed (st : AppState num) (i : nat) :
  nth_error (feed st) i
  = option_map (fun tweet => renderItem (selectedTweet st) tweet i)
               (nth_error (tweets st) i).
Proof. unfold feed, mapi. now rewrite nth_error_mapi_from. Qed.

Lemma selected_true (s : option nat) (i : nat) : selected s i = true <-> s = Some i.
Proof.
  unfold selected. destruct s as [j|]; [|split; discriminate].
  rewrite Nat.eqb_eq. split; congruence.
Qed.

(** X13.  A row of the feed is highlighted exactly when its index is the
    selected one.  The "Alert Details" card shows the alert of the
    highlighted row, and it is missing exactly when no row is highlighted (a
    selected index beyond the list highlights none).  A click on a row
    selects it, or clears the selection if the row was selected; after two
    clicks on a row it is selected if it was before, and nothing is selected
    if it was not. *)
Theorem feed_selection (st : AppState num) :
  (forall i row, nth_error (feed st) i = Some row ->
                 (item_selected row = true <-> selectedTweet st = Some i))
  /\ (forall tweet,
        details st = Some tweet ->
        exists i, selectedTweet st = Some i
                  /\ nth_error (feed st) i = Some (renderItem (Some i) tweet i))
  /\ (details st = None
      <-> forall i row, nth_error (feed st) i = Some row -> item_selected row = false)
  /\ (forall i tweet,
        nth_error (tweets st) i = Some tweet ->
        details (clickRow i st)
        = if selected (selectedTweet st) i then None else Some tweet)
  /\ (forall i, selectedTweet (clickRow i (clickRow i st))
                = if selected (selectedTweet st) i then Some i else None).
Proof.
  assert (Hrow : forall i row, nth_error (feed st) i = Some row ->
                   (item_selected row = true <-> selectedTweet st = Some i)).
  { intros i row. rewrite nth_error_feed.
    destruct (nth_error (tweets st) i) as [tweet|]; [|discriminate].
    simpl. intros E; injection E as <-. simpl. apply selected_true. }
  split; [exact Hrow|]. split; [|split; [|split]].
  - intros tweet. unfold details.
    destruct (selectedTweet st) as [i|] eqn:Es; [|discriminate].
    intros E. exists i. rewrite nth_error_feed, E, Es. auto.
  - unfold details. split.
    + intros E i row Hi. destruct (item_selected row) eqn:Hs; [|reflexivity].
      apply (Hrow i row Hi) in Hs. rewrite Hs in E.
      rewrite nth_error_feed, E in Hi. discriminate.
    + intros Hnone. destruct (selectedTweet st) as [i|] eqn:Es; [|reflexivity].
      destruct (nth_error (tweets st) i) as [tweet|] eqn:E; [|reflexivity].
      assert (Hi : nth_error (feed st) i = Some (renderItem (Some i) tweet i))
        by (rewrite nth_error_feed, E, Es; reflexivity).
      apply Hnone in Hi. simpl in Hi. rewrite Nat.eqb_refl in Hi. discriminate.
  - intros i tweet Hi. unfold details, clickRow. simpl.
    destruct (selected (selectedTweet st) i); [reflexivity | assumption].
  - intros i. unfold clickRow. simpl.
    destruct (selected (selectedTweet st) i) eqn:E; simpl.
    + reflexivity.
    + now rewrite Nat.eqb_refl.
Qed.

End SelectionFacts.

Section StampFacts.

Context {num : Type} `{JsNumber num}.

Local Open Scope nat_scope.
Local Open Scope string_scope.

Lemma index_digits_injective (i j : nat) :
  NilEmpty.string_of_uint (Nat.to_uint i) = NilEmpty.string_of_uint (Nat.to_uint j) ->
  i = j.
Proof.
  intros E. apply (f_equal NilEmpty.uint_of_string) in E.
  rewrite !NilEmpty.usu in E. injection E as E.
  apply (f_equal Nat.of_uint) in E. now rewrite !Unsigned.of_to in E.
Qed.

Lemma nonempty_Some (s : option string) (i : string) :
  nonempty s = Some i <-> s = Some i /\ i <> "".
Proof.
  destruct s as [[|c s]|]; simpl; split;
    try discriminate; try (intros [E Hn]; congruence);
    try (intros E; injection E as <-; split; [reflexivity | discriminate]).
Qed.

Lemma nth_error_sortedTweets (w : World num) (liveTweets : list (Tweet num)) (i : nat) :
  nth_error (sortedTweets w liveTweets) i
  = option_map (fun tweet => stamp w tweet i) (nth_error (sort byPriority liveTweets) i).
Proof. unfold sortedTweets, mapi. now rewrite nth_error_mapi_from. Qed.

(** X14.  Every alert of the list [loadTweets] builds from the live alerts
    has an id that is not empty, its own if it came with one, and a
    timestamp.  Two alerts that came without an id get different ids; an
    alert that came without one gets the id of another alert when that one
    came with the id "tweet_" followed by the index of the first. *)
Theorem stamped_ids (w : World num) (liveTweets : list (Tweet num)) :
  let sorted := sort byPriority liveTweets in
  let shown := sortedTweets w liveTweets in
  (forall i tweet,
      nth_error sorted i = Some tweet ->
      exists alert s,
        nth_error shown i = Some alert
        /\ id alert = Some s /\ s <> ""
        /\ timestamp alert <> None
        /\ (forall own, nonempty (id tweet) = Some own -> s = own))
  /\ (forall i j a b,
         i <> j ->
         nth_error sorted i = Some a -> nonempty (id a) = None ->
         nth_error sorted j = Some b -> nonempty (id b) = None ->
         option_map (@id num) (nth_error shown i)
         <> option_map (@id num) (nth_error shown j))
  /\ (forall i j a b,
         nth_error sorted i = Some a -> nonempty (id a) = None ->
         nth_error sorted j = Some b ->
         id b = Some ("tweet_" ++ NilEmpty.string_of_uint (Nat.to_uint i)) ->
         option_map (@id num) (nth_error shown i)
         = option_map (@id num) (nth_error shown j)).
Proof.
  cbv zeta. split; [|split].
  - intros i tweet Hi. rewrite nth_error_sortedTweets, Hi. simpl.
    destruct (nonempty (id tweet)) as [own|] eqn:E.
    + exists (stamp w tweet i), own. unfold stamp; simpl. rewrite E.
      apply nonempty_Some in E as [_ Hn].
      repeat split; auto.
      * destruct (nonempty (created_at tweet)); discriminate.
      * congruence.
    + exists (stamp w tweet i), ("tweet_" ++ NilEmpty.string_of_uint (Nat.to_uint i)).
      unfold stamp; simpl. rewrite E.
      repeat split; try discriminate.
      destruct (nonempty (created_at tweet)); discriminate.
  - intros i j a b Hij Ha Hna Hb Hnb. rewrite !nth_error_sortedTweets, Ha, Hb.
    simpl. rewrite Hna, Hnb. intros E. injection E as E.
    now apply index_digits_injective in E.
  - intros i j a b Ha Hna Hb Hidb. rewrite !nth_error_sortedTweets, Ha, Hb.
    simpl. rewrite Hna, Hidb. reflexivity.
Qed.


End StampFacts.

(* ================================================================== *)
(** * The fallback, when the simulation answers *)

Section FallbackRobust.

Import Fallback.

Variable Item : Type.
Variable search : Provider -> nat -> string -> nat -> Result (list Item).
Variables (query : string) (max_results : nat).

(** X16.  When the simulation answers every call, neither fallback raises,
    whatever the other providers do: [search_tweets_resilient] returns after
    at most three calls and [search_tweets_with_fallback] after at most
    two. *)
Theorem fallback_never_raises (simulation_mode : bool) :
  (forall n, exists tweets, search simulation n query max_results = returned tweets) ->
  (exists tweets calls,
      run (search_tweets_resilient search query max_results) = (returned tweets, calls)
      /\ (List.length calls <= 3)%nat)
  /\ (exists tweets calls,
         run (search_tweets_with_fallback search simulation_mode query max_results)
         = (returned tweets, calls)
         /\ (List.length calls <= 2)%nat).
Proof.
  intros Hs. destruct (Hs 0%nat) as (sim & Es).
  unfold run, search_tweets_resilient, search_tweets_with_fallback,
    bind, try_except, search_tweets, ret.
  simpl. split.
  - destruct (search primary_api 0 query max_results) as [[|t l]|e]; simpl;
      destruct (search backup_api 0 query max_results) as [[|t' l']|e']; simpl;
      rewrite ?Es; eexists _, _; (split; [reflexivity | simpl; lia]).
  - destruct simulation_mode; simpl.
    + rewrite Es. eexists _, _; (split; [reflexivity | simpl; lia]).
    + destruct (search real_api 0 query max_results) as [[|t l]|e]; simpl;
        rewrite ?Es; eexists _, _; (split; [reflexivity | simpl; lia]).
Qed.

End FallbackRobust.

Lemma fallback_never_raises_witness :
  (exists tweets calls,
      Fallback.run (Fallback.search_tweets_resilient Fallback.only_simulation "fire" 50)
      = (Fallback.returned tweets, calls) /\ (List.length calls <= 3)%nat)
  /\ (exists tweets calls,
         Fallback.run (Fallback.search_tweets_with_fallback
                         Fallback.only_simulation false "fire" 50)
         = (Fallback.returned tweets, calls) /\ (List.length calls <= 2)%nat).
Proof.
  apply (fallback_never_raises string Fallback.only_simulation "fire" 50 false).
  intros n. exists ["simulated tweet"%string]. reflexivity.
Defined.


(* ================================================================== *)
(** * The services of the guide *)

Section SubsequenceFacts.

Context {A : Type}.

Lemma Subsequence_refl (l : list A) : Subsequence l l.
Proof. induction l; constructor; assumption. Qed.

Lemma Subsequence_trans (a b c : list A) :
  Subsequence a b -> Subsequence b c -> Subsequence a c.
Proof.
  intros Hab Hbc. revert a Hab.
  induction Hbc as [|x l l' Hbc IH|x l l' Hbc IH]; intros a Hab.
  - assumption.
  - inversion Hab; subst; constructor; auto.
  - constructor. auto.
Qed.

Lemma Subsequence_filter (p : A -> bool) (l : list A) : Subsequence (filter p l) l.
Proof.
  induction l as [|x l IH]; simpl; [constructor|].
  destruct (p x); constructor; assumption.
Qed.

Lemma Subsequence_In (a b : list A) (x : A) : Subsequence a b -> In x a -> In x b.
Proof.
  induction 1 as [|y l l' Hs IH|y l l' Hs IH]; simpl; tauto.
Qed.

Lemma filter_all (p : A -> bool) (l : list A) :
  Forall (fun x => p x = true) l -> filter p l = l.
Proof.
  induction 1 as [|x l Hx Hl IH]; simpl; [reflexivity|]. now rewrite Hx, IH.
Qed.

Lemma filter_keeps_NoDup {B : Type} (key : A -> B) (keep : A -> bool) :
  forall xs : list A, NoDup (map key xs) -> NoDup (map key (filter keep xs)).
Proof.
  intros xs. induction xs as [|x xs IH]; simpl; [auto|].
  intros Hnd. inversion Hnd as [|? ? Hx Hxs]; subst.
  destruct (keep x); simpl; [constructor|]; auto.
  intros Hi. apply Hx. apply in_map_iff in Hi as (y & E & Hy).
  apply filter_In in Hy as [Hy _]. rewrite <- E. now apply in_map.
Qed.

End SubsequenceFacts.

(** ** [smart_filtering] *)

Section FilteringFacts.

Import Optimized.

Variable hash : string -> Z.

Local Open Scope nat_scope.

Lemma unique_tweets_ext (tweets : list Status) : forall seen seen',
  (forall z, existsb (Z.eqb z) seen = existsb (Z.eqb z) seen') ->
  unique_tweets hash seen tweets = unique_tweets hash seen' tweets.
Proof.
  induction tweets as [|tweet rest IH]; intros seen seen' Hs; simpl; [reflexivity|].
  rewrite <- Hs. destruct (existsb (Z.eqb (text_hash hash tweet)) seen).
  - now apply IH.
  - f_equal. apply IH. intros z. simpl. now rewrite Hs.
Qed.

Lemma unique_tweets_Subsequence (tweets : list Status) : forall seen,
  Subsequence (unique_tweets hash seen tweets) tweets.
Proof.
  induction tweets as [|tweet rest IH]; intros seen; simpl; [constructor|].
  destruct (existsb (Z.eqb (text_hash hash tweet)) seen); constructor; apply IH.
Qed.

Lemma unique_tweets_fresh (tweets : list Status) : forall seen tweet,
  In tweet (unique_tweets hash seen tweets) ->
  existsb (Z.eqb (text_hash hash tweet)) seen = false.
Proof.
  induction tweets as [|t rest IH]; intros seen tweet; simpl; [tauto|].
  destruct (existsb (Z.eqb (text_hash hash t)) seen) eqn:E.
  - apply IH.
  - intros [<-|Hi]; [assumption|].
    apply IH in Hi. simpl in Hi. now apply orb_false_elim in Hi.
Qed.

Lemma unique_tweets_NoDup (tweets : list Status) : forall seen,
  NoDup (map (text_hash hash) (unique_tweets hash seen tweets)).
Proof.
  induction tweets as [|t rest IH]; intros seen; simpl; [constructor|].
  destruct (existsb (Z.eqb (text_hash hash t)) seen) eqn:E; [apply IH|].
  simpl. constructor; [|apply IH].
  intros Hi. apply in_map_iff in Hi as (t' & Eh & Hi).
  apply unique_tweets_fresh in Hi. simpl in Hi. rewrite Eh, Z.eqb_refl in Hi.
  discriminate.
Qed.

(** A tweet whose hash is in the set or on an earlier tweet is dropped, and
    the rest is filtered as without it. *)
Lemma unique_tweets_seen (before : list Status) : forall seen tweet after,
  existsb (Z.eqb (text_hash hash tweet)) seen = true
  \/ In (text_hash hash tweet) (map (text_hash hash) before) ->
  unique_tweets hash seen (before ++ tweet :: after)
  = unique_tweets hash seen (before ++ after).
Proof.
  induction before as [|b before IH]; intros seen tweet after Hs; simpl.
  - destruct Hs as [-> | []]. reflexivity.
  - destruct (existsb (Z.eqb (text_hash hash b)) seen) eqn:E.
    + apply IH. destruct Hs as [Hs|[Hs|Hs]]; auto. left. now rewrite <- Hs.
    + f_equal. apply IH. simpl. destruct Hs as [Hs|[Hs|Hs]]; auto.
      * left. rewrite Hs. apply orb_true_r.
      * left. rewrite Hs, Z.eqb_refl. reflexivity.
Qed.

Lemma unique_tweets_fixed (tweets : list Status) : forall seen,
  NoDup (map (text_hash hash) tweets) ->
  Forall (fun tweet => existsb (Z.eqb (text_hash hash tweet)) seen = false) tweets ->
  unique_tweets hash seen tweets = tweets.
Proof.
  induction tweets as [|t rest IH]; intros seen Hnd Hf; simpl; [reflexivity|].
  inversion Hnd as [|? ? Ht Hrest]; subst. inversion Hf as [|? ? Hs Hf']; subst.
  rewrite Hs. f_equal. apply IH; [assumption|].
  apply Forall_forall. intros t' Hi. simpl.
  rewrite Forall_forall in Hf'. rewrite (Hf' _ Hi), orb_false_r.
  apply Z.eqb_neq. intros E. apply Ht. rewrite <- E. now apply in_map.
Qed.

Lemma english_en (t : Status) : english t = true <-> status_lang t = Some "en"%string.
Proof.
  unfold english. destruct (status_lang t) as [l|]; [|split; discriminate].
  rewrite String.eqb_eq. split; congruence.
Qed.

Lemma quality_length (t : Status) :
  quality t = true <-> 20 <= String.length (status_text t) <= 280.
Proof.
  unfold quality. rewrite andb_true_iff, !Nat.leb_le. tauto.
Qed.

(** What is kept has hashes of its own, and passed the two tests. *)
Lemma smart_filtering_kept (tweets : list Status) :
  NoDup (map (text_hash hash) (smart_filtering hash tweets))
  /\ Forall (fun tweet => english tweet = true /\ quality tweet = true)
            (smart_filtering hash tweets).
Proof.
  unfold smart_filtering. cbv zeta. split.
  - do 2 apply filter_keeps_NoDup. apply unique_tweets_NoDup.
  - apply Forall_forall. intros t Ht.
    apply filter_In in Ht as [Ht Hq]. apply filter_In in Ht as [_ He]. auto.
Qed.

(** X17.  [smart_filtering] returns tweets of its argument, in their order;
    no two of them have the same hash of the lowercased text; each is in
    English and has a text of 20 to 280 characters. *)
Theorem smart_filtering_sound (tweets : list Status) :
  let kept := smart_filtering hash tweets in
  Subsequence kept tweets
  /\ NoDup (map (text_hash hash) kept)
  /\ Forall (fun tweet => status_lang tweet = Some "en"%string
                          /\ 20 <= String.length (status_text tweet) <= 280) kept.
Proof.
  unfold smart_filtering. cbv zeta. split; [|split].
  - eapply Subsequence_trans; [apply Subsequence_filter|].
    eapply Subsequence_trans; [apply Subsequence_filter|].
    apply unique_tweets_Subsequence.
  - apply smart_filtering_kept.
  - destruct (smart_filtering_kept tweets) as [_ Hf].
    eapply Forall_impl; [|exact Hf]. simpl. intros t [He Hq].
    split; [now apply english_en | now apply quality_length].
Qed.

(** X18.  A tweet whose text, up to the case of the letters, is the text of
    an earlier tweet of the list has no effect on the result: it is dropped,
    also when the earlier tweet is dropped itself, for its language or its
    length. *)
Theorem smart_filtering_seen_text (before after : list Status) (earlier tweet : Status) :
  In earlier before ->
  Str.toLowerCase (status_text earlier) = Str.toLowerCase (status_text tweet) ->
  smart_filtering hash (before ++ tweet :: after) = smart_filtering hash (before ++ after).
Proof.
  intros Hi Et. unfold smart_filtering. cbv zeta.
  rewrite unique_tweets_seen; [reflexivity|].
  right. apply in_map_iff. exists earlier. split; [|assumption].
  unfold text_hash. now rewrite Et.
Qed.

(** X19.  Filtering a filtered list changes nothing. *)
Theorem smart_filtering_idempotent (tweets : list Status) :
  smart_filtering hash (smart_filtering hash tweets) = smart_filtering hash tweets.
Proof.
  destruct (smart_filtering_kept tweets) as (Hnd & Hf).
  set (kept := smart_filtering hash tweets) in *.
  unfold smart_filtering at 1. cbv zeta.
  rewrite unique_tweets_fixed; [| assumption | apply Forall_forall; reflexivity].
  rewrite (filter_all english).
  - apply filter_all. apply Forall_forall. intros t Ht.
    rewrite Forall_forall in Hf. now apply Hf.
  - apply Forall_forall. intros t Ht.
    rewrite Forall_forall in Hf. now apply Hf.
Qed.

End FilteringFacts.

(** ** [search_with_cache] *)

Section CacheFacts.

Import Fallback Optimized.

Context {num : Type} `{JsNumber num}.

Variable Item : Type.
Variable search_tweets_real : nat -> string -> nat -> Result (list Item).

Local Open Scope string_scope.

Lemma get_set_same {V : Type} (key : string) (v : V) (d : Dict V) :
  get key (set key v d) = Some v.
Proof.
  induction d as [|[k x] d IH]; simpl.
  - now rewrite String.eqb_refl.
  - destruct (String.eqb key k) eqn:E; simpl; now rewrite E.
Qed.

Lemma get_set_other {V : Type} (key key' : string) (v : V) (d : Dict V) :
  key <> key' -> get key (set key' v d) = get key d.
Proof.
  intros Hk. induction d as [|[k x] d IH]; simpl.
  - apply String.eqb_neq in Hk. now rewrite Hk.
  - destruct (String.eqb key' k) eqn:E; simpl.
    + apply String.eqb_eq in E. subst k.
      apply String.eqb_neq in Hk. now rewrite Hk.
    + now rewrite IH.
Qed.

Lemma digit_not_underscore c : Fixed.is_digit c = true -> not_underscore c = true.
Proof.
  unfold Fixed.is_digit, not_underscore. intros Hd.
  destruct (Ascii.eqb_spec c "_") as [->|]; [discriminate | reflexivity].
Qed.

(** The last underscore of a key parts the query from the number. *)
Lemma split_last (a a' b b' : string) :
  Str.all not_underscore b = true -> Str.all not_underscore b' = true ->
  a ++ String "_" b = a' ++ String "_" b' -> a = a' /\ b = b'.
Proof.
  intros Hb Hb'. revert a'. induction a as [|c a IH]; intros [|c' a'] E; simpl in E.
  - injection E as E. auto.
  - injection E as Ec E. subst b. rewrite all_app in Hb. simpl in Hb.
    rewrite andb_false_r in Hb. discriminate.
  - injection E as Ec E. subst b'. rewrite all_app in Hb'. simpl in Hb'.
    rewrite andb_false_r in Hb'. discriminate.
  - injection E as -> E. destruct (IH _ E) as [-> ->]. auto.
Qed.

Lemma cache_key_injective (query query' : string) (max_results max_results' : nat) :
  cache_key query max_results = cache_key query' max_results' ->
  query = query' /\ max_results = max_results'.
Proof.
  unfold cache_key. intros E.
  apply split_last in E as [Eq Ed].
  - split; [assumption|]. now apply index_digits_injective.
  - eapply all_weaken; [exact digit_not_underscore | apply uint_digits].
  - eapply all_weaken; [exact digit_not_underscore | apply uint_digits].
Qed.

(** X20.  After a call of [search_with_cache] that fetched tweets, a call
    for the same query and number made less than 300 seconds later returns
    these tweets and makes no request; a later one makes a request, stores
    the tweets it returns and raises what it raises, the entry kept. *)
Theorem cache_hit (now later : num) (query : string) (max_results : nat)
  (s s' : Service Item) (tweets : list Item) :
  search_with_cache search_tweets_real now query max_results s = (returned tweets, s') ->
  requests s' = S (requests s) ->
  (js_ltb (js_sub later now) (js_lit 300) = true ->
   search_with_cache search_tweets_real later query max_results s' = (returned tweets, s'))
  /\ (js_ltb (js_sub later now) (js_lit 300) = false ->
      search_with_cache search_tweets_real later query max_results s'
      = match search_tweets_real (requests s') query max_results with
        | returned fresh =>
            (returned fresh,
             {| cache := set (cache_key query max_results) (later, fresh) (cache s');
                requests := S (requests s') |})
        | raised e => (raised e, {| cache := cache s'; requests := S (requests s') |})
        end).
Proof.
  unfold search_with_cache at 1. cbv zeta. intros E Hr.
  assert (Es' : s' = {| cache := set (cache_key query max_results) (now, tweets) (cache s);
                        requests := S (requests s) |}).
  { destruct (get (cache_key query max_results) (cache s)) as [[t d]|].
    - destruct (js_ltb (js_sub now t) (js_lit 300)).
      + injection E as _ <-. lia.
      + destruct (search_tweets_real (requests s) query max_results);
          [injection E as <- <-; reflexivity | discriminate].
    - destruct (search_tweets_real (requests s) query max_results);
        [injection E as <- <-; reflexivity | discriminate]. }
  rewrite Es'. unfold search_with_cache. cbv zeta. simpl.
  rewrite get_set_same. split; intros ->; reflexivity.
Qed.

(** X21.  Two cache keys are the same only for the same query and the same
    number of results, so that a call of [search_with_cache] leaves the
    entries of the other queries and numbers as they are. *)
Theorem cache_entries_apart (now : num) (query query' : string)
  (max_results max_results' : nat) (s : Service Item) :
  (cache_key query max_results = cache_key query' max_results'
   <-> query = query' /\ max_results = max_results')
  /\ (query <> query' \/ max_results <> max_results' ->
      get (cache_key query max_results)
          (cache (snd (search_with_cache search_tweets_real now query' max_results' s)))
      = get (cache_key query max_results) (cache s)).
Proof.
  split.
  - split; [apply cache_key_injective | intros [-> ->]; reflexivity].
  - intros Hne.
    assert (Hk : cache_key query max_results <> cache_key query' max_results').
    { intros E. apply cache_key_injective in E as [-> ->]. destruct Hne; congruence. }
    unfold search_with_cache. cbv zeta.
    destruct (get (cache_key query' max_results') (cache s)) as [[t d]|];
      [destruct (js_ltb (js_sub now t) (js_lit 300)); [reflexivity|]|];
      destruct (search_tweets_real (requests s) query' max_results'); simpl;
      try reflexivity; now apply get_set_other.
Qed.

End CacheFacts.

(** ** [retry_on_rate_limit] *)

Section RetryFacts.

Import Retry.

Variable A : Type.
Variable func : nat -> Outcome A.

Local Open Scope nat_scope.

Lemma sum_powers (k : nat) : list_sum (map (Nat.pow 2) (seq 0 k)) = 2 ^ k - 1.
Proof.
  induction k as [|k IH]; [reflexivity|].
  rewrite seq_S, map_app, list_sum_app, IH. simpl.
  assert (0 < 2 ^ k) by (apply Nat.neq_0_lt_0, Nat.pow_nonzero; lia). lia.
Qed.

Lemma attempts_trace (remaining : nat) : forall attempt tr,
  let out := fst (attempts func attempt remaining tr) in
  let tr' := snd (attempts func attempt remaining tr) in
  exists k,
    sleeps tr' = sleeps tr ++ map (Nat.pow 2) (seq attempt k)
    /\ (forall i, i < k -> func (calls tr + i) = raise RateLimitError)
    /\ ((k = remaining /\ calls tr' = calls tr + k
         /\ out = raise (OtherException "Max retries exceeded"))
        \/ (k < remaining /\ calls tr' = calls tr + k + 1
            /\ out = func (calls tr + k) /\ out <> raise RateLimitError)).
Proof.
  induction remaining as [|remaining IH]; intros attempt tr; cbv zeta.
  - exists 0. simpl. rewrite app_nil_r. split; [reflexivity|].
    split; [intros i Hi; lia|]. left. repeat split; lia.
  - simpl. destruct (func (calls tr)) as [a|[|message]] eqn:E.
    + exists 0. simpl. rewrite app_nil_r, Nat.add_0_r, E. split; [reflexivity|].
      split; [intros i Hi; lia|]. right. repeat split; try lia. discriminate.
    + destruct (IH (S attempt) {| calls := S (calls tr);
                                  sleeps := sleeps tr ++ [2 ^ attempt] |})
        as (k & Hs & Hf & Hr).
      cbv zeta in Hs, Hr. simpl in Hs, Hf, Hr.
      exists (S k). split; [|split].
      * rewrite Hs, <- app_assoc. reflexivity.
      * intros [|i] Hi; [now rewrite Nat.add_0_r|].
        replace (calls tr + S i) with (S (calls tr + i)) by lia. apply Hf. lia.
      * replace (calls tr + S k) with (S (calls tr + k)) by lia.
        destruct Hr as [(Hk & Hc & Ho)|(Hk & Hc & Ho & Hn)];
          [left | right]; repeat split; try assumption; lia.
    + exists 0. simpl. rewrite app_nil_r, Nat.add_0_r, E. split; [reflexivity|].
      split; [intros i Hi; lia|]. right. repeat split; try lia. discriminate.
Qed.

(** X22.  The wrapper of [retry_on_rate_limit] calls the function until a
    call does not raise a rate limit error, at most [max_retries] times.
    After each call that raised one it sleeps: 1, 2, 4, ... seconds,
    [2 ^ k - 1] in all after [k] such calls, the last one included.  It
    ends with the outcome of the first other call, or, after [max_retries]
    rate limit errors, by raising "Max retries exceeded". *)
Theorem retry_trace (max_retries : nat) :
  let out := fst (wrapper func max_retries) in
  let tr := snd (wrapper func max_retries) in
  exists k,
    sleeps tr = map (Nat.pow 2) (seq 0 k)
    /\ list_sum (sleeps tr) = 2 ^ k - 1
    /\ (forall i, i < k -> func i = raise RateLimitError)
    /\ ((k = max_retries /\ calls tr = max_retries
         /\ out = raise (OtherException "Max retries exceeded"))
        \/ (k < max_retries /\ calls tr = k + 1
            /\ out = func k /\ out <> raise RateLimitError)).
Proof.
  cbv zeta. unfold wrapper.
  destruct (attempts_trace max_retries 0 {| calls := 0; sleeps := [] |})
    as (k & Hs & Hf & Hr).
  cbv zeta in Hs, Hr. simpl in Hs, Hf, Hr.
  exists k. rewrite Hs. split; [reflexivity|]. split; [apply sum_powers|].
  split; [exact Hf|]. destruct Hr as [(Hk & Hc & Ho)|(Hk & Hc & Ho & Hn)];
    [left | right]; repeat split; try assumption; lia.
Qed.

End RetryFacts.

(** ** [_start_polling_stream] *)

Section PollingFacts.

Import Fallback Polling.

Local Open Scope Z_scope.

Implicit Types (s : Worker) (tweets : list Status) (tweet : Status).

(** The new tweets are the tweets before the first one seen. *)
Lemma new_tweets_prefix last tweets :
  exists rest,
    tweets = new_tweets last tweets ++ rest
    /\ Forall (fun tweet => seen last tweet = false) (new_tweets last tweets)
    /\ match rest with
       | [] => True
       | tweet :: _ => seen last tweet = true
       end.
Proof.
  induction tweets as [|tweet tweets (rest & E & Hn & Hr)]; simpl.
  - exists []. auto.
  - destruct (seen last tweet) eqn:Es.
    + exists (tweet :: tweets). auto.
    + exists rest. simpl. rewrite <- E. auto.
Qed.

Lemma seen_false (last : Z) tweet :
  last <> 0 -> seen (Some last) tweet = false -> last < status_id tweet.
Proof.
  unfold seen. intros Hl. apply Z.eqb_neq in Hl. rewrite Hl. simpl.
  intros E. apply Z.leb_gt in E. assumption.
Qed.

(** X23.  One turn of the polling worker calls the callback at most once,
    with tweets of the response, in their order, that are disasters and are
    not seen (above [last_tweet_id], when that is set).  [last_tweet_id]
    stays, or becomes the id of the first tweet of the response, which is
    not seen then; once set and not 0, it never decreases. *)
Theorem poll_delivers_new s tweets :
  let s' := poll s (returned tweets) in
  (delivered s' = delivered s
   \/ exists batch,
        delivered s' = delivered s ++ [batch] /\ batch <> []
        /\ Subsequence batch tweets
        /\ Forall (fun tweet => status_is_disaster tweet = true
                                /\ seen (last_tweet_id s) tweet = false) batch)
  /\ (last_tweet_id s' = last_tweet_id s
      \/ exists first,
           hd_error tweets = Some first
           /\ last_tweet_id s' = Some (status_id first)
           /\ seen (last_tweet_id s) first = false)
  /\ (forall last, last_tweet_id s = Some last -> last <> 0 ->
        exists last', last_tweet_id s' = Some last' /\ last <= last').
Proof.
  cbv zeta. unfold poll.
  destruct (new_tweets_prefix (last_tweet_id s) tweets) as (rest & E & Hn & _).
  destruct (new_tweets (last_tweet_id s) tweets) as [|first new] eqn:En.
  - split; [now left|]. split; [now left|]. intros last Hl _. exists last.
    split; [assumption | lia].
  - cbn [last_tweet_id delivered]. split; [|split].
    + destruct (filter status_is_disaster (first :: new)) as [|t batch] eqn:Ef;
        [now left|].
      right. exists (t :: batch). split; [reflexivity|]. split; [discriminate|].
      rewrite <- Ef. split.
      * eapply Subsequence_trans; [apply Subsequence_filter|].
        rewrite E. clear. induction (first :: new) as [|x l IH]; simpl.
        -- induction rest; constructor; assumption.
        -- now constructor.
      * apply Forall_forall. intros tweet Ht. apply filter_In in Ht as [Ht Hd].
        rewrite Forall_forall in Hn. auto.
    + right. exists first. rewrite E. simpl. split; [reflexivity|].
      split; [reflexivity|]. now inversion Hn.
    + intros last Hl H0. exists (status_id first). split; [reflexivity|].
      inversion Hn as [|? ? Hs _]; subst. rewrite Hl in Hs.
      apply seen_false in Hs; [lia | assumption].
Qed.

Lemma sorted_NoDup tweets :
  StronglySorted (fun a b => status_id b < status_id a) tweets ->
  NoDup (map status_id tweets).
Proof.
  induction 1 as [|tweet tweets Hs IH Hf]; simpl; constructor; [|assumption].
  intros Hi. apply in_map_iff in Hi as (t & E & Hi).
  rewrite Forall_forall in Hf. specialize (Hf _ Hi). lia.
Qed.

Lemma sorted_prefix (new rest : list Status) :
  StronglySorted (fun a b => status_id b < status_id a) (new ++ rest) ->
  StronglySorted (fun a b => status_id b < status_id a) new.
Proof.
  induction new as [|t new IH]; simpl; [constructor|].
  intros Hs. inversion Hs as [|? ? Hs' Hf]; subst. constructor; [auto|].
  apply Forall_app in Hf. tauto.
Qed.

Lemma settled_poll s response :
  newest_first response -> settled s -> settled (poll s response).
Proof.
  intros Hr (Hnd & Hl). destruct response as [tweets|e]; [|split; assumption].
  destruct Hr as [Hs Hp]. unfold poll.
  destruct (new_tweets_prefix (last_tweet_id s) tweets) as (rest & E & Hn & _).
  destruct (new_tweets (last_tweet_id s) tweets) as [|first new] eqn:En;
    [split; assumption|].
  rewrite E in Hs, Hp. apply sorted_prefix in Hs. apply Forall_app in Hp as [Hp _].
  assert (Hfirst : Forall (fun tweet => status_id tweet <= status_id first) (first :: new)).
  { inversion Hs as [|? ? _ Hf]; subst. constructor; [lia|].
    eapply Forall_impl; [|exact Hf]. simpl. intros; lia. }
  assert (Hold : forall i, In i (ids (delivered s)) ->
                   forall tweet, In tweet (first :: new) -> i < status_id tweet).
  { intros i Hi tweet Ht. rewrite Forall_forall in Hn. specialize (Hn _ Ht).
    destruct (last_tweet_id s) as [last|] eqn:El.
    - destruct Hl as [H0 Hle]. rewrite Forall_forall in Hle. specialize (Hle _ Hi).
      apply seen_false in Hn; lia.
    - rewrite Hl in Hi. destruct Hi. }
  assert (Hpos : 0 < status_id first) by now inversion Hp.
  assert (Hb : forall tweet, In tweet (filter status_is_disaster (first :: new)) ->
                             In tweet (first :: new)).
  { intros tweet Ht. now apply filter_In in Ht. }
  assert (Hndb : NoDup (map status_id (filter status_is_disaster (first :: new)))).
  { apply filter_keeps_NoDup. now apply sorted_NoDup. }
  assert (Hle : Forall (fun i => i <= status_id first) (ids (delivered s))).
  { apply Forall_forall. intros i Hi.
    specialize (Hold i Hi first (or_introl eq_refl)). lia. }
  split; cbn [last_tweet_id delivered].
  - destruct (filter status_is_disaster (first :: new)) as [|t batch]; [assumption|].
    unfold ids. rewrite List.concat_app, map_app. cbn [List.concat]. rewrite app_nil_r.
    apply NoDup_app; [assumption | assumption |].
    intros i Hi Hi'. apply in_map_iff in Hi' as (tweet & <- & Ht).
    specialize (Hold _ Hi tweet (Hb _ Ht)). lia.
  - split; [assumption|].
    destruct (filter status_is_disaster (first :: new)) as [|t batch]; [assumption|].
    unfold ids. rewrite List.concat_app, map_app. cbn [List.concat]. rewrite app_nil_r.
    apply Forall_app. split; [assumption|].
    apply Forall_forall. intros i Hi. apply in_map_iff in Hi as (tweet & <- & Ht).
    rewrite Forall_forall in Hfirst. apply Hfirst. now apply Hb.
Qed.

Lemma settled_fold (responses : list (Result (list Status))) : forall s,
  Forall newest_first responses -> settled s -> settled (fold_left poll responses s).
Proof.
  induction responses as [|response responses IH]; intros s Hr Hs; simpl; [assumption|].
  inversion Hr; subst. apply IH; [assumption|]. now apply settled_poll.
Qed.

(** A turn gives the callback disaster tweets only. *)
Lemma poll_disasters s response :
  Forall (fun tweet => status_is_disaster tweet = true) (List.concat (delivered s)) ->
  Forall (fun tweet => status_is_disaster tweet = true)
         (List.concat (delivered (poll s response))).
Proof.
  intros Hs. destruct response as [tweets|e]; [|assumption]. unfold poll.
  destruct (new_tweets (last_tweet_id s) tweets) as [|first new]; [assumption|].
  cbn [delivered].
  assert (Hf : Forall (fun tweet => status_is_disaster tweet = true)
                      (filter status_is_disaster (first :: new))).
  { apply Forall_forall. intros tweet Ht. now apply filter_In in Ht. }
  destruct (filter status_is_disaster (first :: new)) as [|t batch]; [assumption|].
  rewrite List.concat_app. cbn [List.concat]. rewrite app_nil_r.
  apply Forall_app. auto.
Qed.

(** X24.  When every response lists its tweets newest first, with positive
    ids, the polling worker gives no tweet id to the callback twice, over
    all its turns, and gives it disaster tweets only. *)
Theorem polling_delivers_once (responses : list (Result (list Status))) :
  Forall newest_first responses ->
  NoDup (ids (delivered (polling_worker responses)))
  /\ Forall (fun tweet => status_is_disaster tweet = true)
            (List.concat (delivered (polling_worker responses))).
Proof.
  intros Hr. split.
  - apply (settled_fold responses); [assumption|].
    split; [constructor | reflexivity].
  - unfold polling_worker.
    assert (Hd : forall s, Forall (fun tweet => status_is_disaster tweet = true)
                                  (List.concat (delivered s)) ->
                           Forall (fun tweet => status_is_disaster tweet = true)
                                  (List.concat (delivered (fold_left poll responses s)))).
    { clear Hr. induction responses as [|response responses IH]; intros s Hs; simpl;
        [assumption|].
      apply IH. now apply poll_disasters. }
    apply Hd. constructor.
Qed.

End PollingFacts.

(** ** [APIMonitor] *)

Section MonitorFacts.

Import Monitor.

Context {num : Type} `{JsNumber num} `{JsProduct num}.

Local Open Scope string_scope.

Lemma track_requests (requests : list (Z * num)) : forall s : usage_stats,
  let s' := fold_left track_request requests s in
  requests_today s' = (requests_today s + List.length requests)%nat
  /\ tweets_processed s' = fold_left Z.add (map fst requests) (tweets_processed s)
  /\ cost_today s' = fold_left js_add (map snd requests) (cost_today s)
  /\ errors s' = errors s.
Proof.
  induction requests as [|[n c] requests IH]; intros s; cbv zeta.
  - simpl. repeat split. lia.
  - cbn [fold_left map fst snd List.length].
    destruct (IH (track_request s (n, c))) as (Hr & Ht & Hc & He).
    cbv zeta in *. rewrite Hr, Ht, Hc, He. simpl. repeat split. lia.
Qed.

(** X25.  After any requests tracked by a new [APIMonitor], the requests
    counted are their number, the tweets and the cost are their sums, and
    the errors are 0: [check_limits] never sends the alert on the error
    rate, and sends the one on the budget exactly when the cost is above
    [50.0 * 0.9]. *)
Theorem monitor_counts (requests : list (Z * num)) :
  let s := fold_left track_request requests init in
  requests_today s = List.length requests
  /\ tweets_processed s = fold_left Z.add (map fst requests) 0%Z
  /\ cost_today s = sum (map snd requests)
  /\ errors s = 0%nat
  /\ check_limits s
     = if js_ltb (js_mul (js_lit 50) (js_lit 0.9)) (sum (map snd requests))
       then ["Approaching daily budget limit"] else [].
Proof.
  cbv zeta. destruct (track_requests requests init) as (Hr & Ht & Hc & He).
  cbv zeta in *. simpl in Hr, Ht, Hc, He.
  split; [assumption|]. split; [assumption|]. split; [assumption|].
  split; [assumption|].
  unfold check_limits. cbv zeta. rewrite He, Hc. simpl.
  fold (sum (map snd requests)). now rewrite app_nil_r.
Qed.

(** In binary64 the threshold [50.0 * 0.9] is 45.0. *)
Remark budget_threshold_binary64 :
  @js_mul _ Binary64_product (js_lit 50) (js_lit 0.9) = js_lit 45.
Proof. vm_compute. reflexivity. Qed.

End MonitorFacts.

(** ** The theorems on the services, at the example inputs *)

Lemma smart_filtering_seen_text_witness :
  Optimized.smart_filtering example_hash [alerta; warning]
  = Optimized.smart_filtering example_hash [alerta].
Proof.
  apply (smart_filtering_seen_text example_hash [alerta] [] alerta warning).
  - left. reflexivity.
  - reflexivity.
Defined.

Lemma cache_hit_witness :
  let first := Optimized.search_with_cache numbered 1000 "earthquake" 50 empty_service in
  Optimized.search_with_cache numbered 1200 "earthquake" 50 (snd first)
  = (Fallback.returned [0%nat], snd first)
  /\ fst (Optimized.search_with_cache numbered 1300 "earthquake" 50 (snd first))
     = Fallback.returned [1%nat].
Proof.
  cbv zeta.
  destruct (cache_hit nat numbered 1000 1200 "earthquake" 50 empty_service
              (snd (Optimized.search_with_cache numbered 1000 "earthquake" 50 empty_service))
              [0%nat] eq_refl eq_refl) as [Hit _].
  split; [exact (Hit eq_refl) | reflexivity].
Defined.

Lemma polled_newest_first : Forall newest_first polled_responses.
Proof.
  repeat constructor; simpl; lia.
Qed.

Lemma polling_delivers_once_witness :
  NoDup (ids (Polling.delivered (Polling.polling_worker polled_responses)))
  /\ ids (Polling.delivered (Polling.polling_worker polled_responses)) = [3; 1; 5; 4]%Z.
Proof.
  destruct (polling_delivers_once polled_responses polled_newest_first) as [Hnd _].
  exact (conj Hnd eq_refl).
Defined.
